(** * Feedback encyclopedia: retrieval and ranking pipeline

    A shallow embedding of the three source files of the repository:

    - [src/app/api/feedback/route.ts]  (the [GET] corpus listing),
    - the AI search route              (the [POST] ranking endpoint),
    - [src/app/page.tsx]               (the page component: filter
      precedence and the handlers that drive the ranking request).

    JavaScript strings are modelled by [string], the sequence of bytes of
    their UTF-8 encoding.  Every pattern the code searches for is ASCII, so
    matching on bytes and matching on UTF-16 code units agree. *)

From Stdlib Require Import Ascii ZArith Lia.
From stdpp Require Import gmap strings list pretty sorting.

Local Open Scope string_scope.
Local Open Scope nat_scope.
Local Open Scope list_scope.

#[local] Set Warnings "-register-all".

(** ** JavaScript string primitives used by the code *)

Module JsString.

(** Truthiness of a string value: only the empty string is falsy. *)
Definition truthy (s : string) : bool :=
  match s with
  | EmptyString => false
  | String _ _ => true
  end.

(** [a || b] on two strings. *)
Definition or_else (a b : string) : string :=
  if truthy a then a else b.

(** [s.startsWith(p)]. *)
Fixpoint startsWith (p s : string) : bool :=
  match p with
  | EmptyString => true
  | String a p' =>
      match s with
      | EmptyString => false
      | String b s' => if Ascii.eqb a b then startsWith p' s' else false
      end
  end.

(** [s.slice(n)] for a non-negative [n]. *)
Fixpoint slice (n : nat) (s : string) : string :=
  match n with
  | 0 => s
  | S k =>
      match s with
      | EmptyString => EmptyString
      | String _ s' => slice k s'
      end
  end.

(** [s.includes(p)]. *)
Fixpoint includes (p s : string) : bool :=
  startsWith p s ||
  match s with
  | EmptyString => false
  | String _ s' => includes p s'
  end.

(** [s.replace(/p/g, '')] for a literal, non-empty pattern [p]: a scan
    from the left; at a match the whole pattern is skipped ([skip] counts
    the bytes of the match still to drop) and the scan resumes after it. *)
Fixpoint remove_from (p : string) (skip : nat) (s : string) : string :=
  match s with
  | EmptyString => EmptyString
  | String c s' =>
      match skip with
      | S k => remove_from p k s'
      | 0 =>
          if startsWith p s
          then remove_from p (String.length p - 1) s'
          else String c (remove_from p 0 s')
      end
  end.

Definition remove_all (p s : string) : string := remove_from p 0 s.

(** White space in the sense of [String.prototype.trim]: the ECMAScript
    WhiteSpace and LineTerminator code points, read off their UTF-8
    encodings.  One byte: TAB, LF, VT, FF, CR, SP. *)
Definition ws1 (a : ascii) : bool :=
  let n := nat_of_ascii a in
  (((9 <=? n) && (n <=? 13)) || (n =? 32))%nat.

(** Two bytes: U+00A0. *)
Definition ws2 (a b : ascii) : bool :=
  ((nat_of_ascii a =? 194) && (nat_of_ascii b =? 160))%nat.

(** Three bytes: U+1680, U+2000..U+200A, U+2028, U+2029, U+202F, U+205F,
    U+3000, U+FEFF. *)
Definition ws3 (a b c : ascii) : bool :=
  let x := nat_of_ascii a in
  let y := nat_of_ascii b in
  let z := nat_of_ascii c in
  (((x =? 225) && (y =? 154) && (z =? 128))
   || ((x =? 226) && (y =? 128)
       && (((128 <=? z) && (z <=? 138)) || (z =? 168) || (z =? 169) || (z =? 175)))
   || ((x =? 226) && (y =? 129) && (z =? 159))
   || ((x =? 227) && (y =? 128) && (z =? 128))
   || ((x =? 239) && (y =? 187) && (z =? 191)))%nat.

(** [s.trimStart()]. *)
Fixpoint trimStart (s : string) : string :=
  match s with
  | EmptyString => EmptyString
  | String a s1 =>
      if ws1 a then trimStart s1
      else
        match s1 with
        | EmptyString => s
        | String b s2 =>
            if ws2 a b then trimStart s2
            else
              match s2 with
              | EmptyString => s
              | String c s3 => if ws3 a b c then trimStart s3 else s
              end
        end
  end.

(** The same scan from the right end, on the reversed byte sequence (so
    a three-byte code point arrives last byte first). *)
Fixpoint trimStart_rev (s : string) : string :=
  match s with
  | EmptyString => EmptyString
  | String a s1 =>
      if ws1 a then trimStart_rev s1
      else
        match s1 with
        | EmptyString => s
        | String b s2 =>
            if ws2 b a then trimStart_rev s2
            else
              match s2 with
              | EmptyString => s
              | String c s3 => if ws3 c b a then trimStart_rev s3 else s
              end
        end
  end.

Definition trimEnd (s : string) : string :=
  String.rev (trimStart_rev (String.rev s)).

(** [s.trim()]. *)
Definition trim (s : string) : string := trimEnd (trimStart s).

End JsString.

(** ** [JSON.parse] *)

Module Json.

(** A number literal, kept exact: its value is
    [(-1)^neg * mant * 10^exp10].  [JSON.parse] makes of it the nearest
    double, ties going to the even mantissa; the comparison with a row
    index ([number_is], below) decides on the exact value whether that
    double is the index. *)
Record number := mkNumber { neg : bool; mant : N; exp10 : Z }.

(** A parsed value.  An object keeps its members in the order of the
    text; a string keeps the text between its quotes as written (escapes
    are checked, not decoded: the routes never look inside a string of
    the model's answer). *)
Inductive value :=
| JNull
| JBool (b : bool)
| JNum (n : number)
| JStr (s : string)
| JArr (items : list value)
| JObj (members : list (string * value)).

(** [obj[key]] on the members of an object: the last occurrence of a
    repeated key wins. *)
Fixpoint get (key : string) (members : list (string * value)) : option value :=
  match members with
  | [] => None
  | (k, v) :: rest =>
      match get key rest with
      | Some w => Some w
      | None => if String.eqb k key then Some v else None
      end
  end.

(** *** Lexer: one pass over the bytes, the state in [mode] *)

Inductive token :=
| TLBracket | TRBracket | TLBrace | TRBrace | TComma | TColon
| TNull | TTrue | TFalse
| TNum (n : number)
| TStr (s : string).

(** Where in the number grammar
    [-? (0 | [1-9][0-9]* ) (. [0-9]+)? ([eE] [+-]? [0-9]+)?] the lexer is. *)
Inductive numst :=
| NSign | NZero | NInt | NPoint | NFrac | NExpMark | NExpSign | NExp.

Record numacc := mkAcc {
  a_neg : bool;     (* a leading minus *)
  a_mant : N;       (* the digits before and after the point *)
  a_scale : N;      (* how many of them came after the point *)
  a_eneg : bool;    (* a minus in the exponent *)
  a_exp : N         (* the digits of the exponent *)
}.

Definition acc0 : numacc := mkAcc false 0 0 false 0.

Inductive mode :=
| MSkip                               (* between tokens *)
| MNum (st : numst) (a : numacc)      (* inside a number *)
| MStr (acc : string)                 (* inside a string; [acc] reversed *)
| MEsc (acc : string)                 (* after a backslash *)
| MHex (k : nat) (acc : string)       (* [S k] hex digits still to come *)
| MWord (rest : string) (t : token).  (* inside null, true or false *)

Definition quote : ascii := "034"%char.

Definition code (c : ascii) : N := N_of_ascii c.

Definition digit (c : ascii) : option N :=
  if ((48 <=? code c) && (code c <=? 57))%N then Some (code c - 48)%N else None.

Definition is_hex (c : ascii) : bool :=
  (((48 <=? code c) && (code c <=? 57))
   || ((65 <=? code c) && (code c <=? 70))
   || ((97 <=? code c) && (code c <=? 102)))%N.

(** JSON white space: space, tab, line feed, carriage return. *)
Definition is_ws (c : ascii) : bool :=
  ((code c =? 32) || (code c =? 9) || (code c =? 10) || (code c =? 13))%N.

Definition accepting (st : numst) : bool :=
  match st with
  | NZero | NInt | NFrac | NExp => true
  | NSign | NPoint | NExpMark | NExpSign => false
  end.

Definition finish (a : numacc) : number :=
  {| neg := a_neg a;
     mant := a_mant a;
     exp10 := ((if a_eneg a then - Z.of_N (a_exp a) else Z.of_N (a_exp a))
               - Z.of_N (a_scale a))%Z |}.

Definition push_digit (a : numacc) (d : N) : numacc :=
  mkAcc (a_neg a) (a_mant a * 10 + d) (a_scale a) (a_eneg a) (a_exp a).

Definition push_frac (a : numacc) (d : N) : numacc :=
  mkAcc (a_neg a) (a_mant a * 10 + d) (a_scale a + 1) (a_eneg a) (a_exp a).

Definition push_exp (a : numacc) (d : N) : numacc :=
  mkAcc (a_neg a) (a_mant a) (a_scale a) (a_eneg a) (a_exp a * 10 + d).

Definition is_e (c : ascii) : bool := ((code c =? 101) || (code c =? 69))%N.

(** One more byte of a number, or [None] when the byte is not part of
    it. *)
Definition num_step (st : numst) (a : numacc) (c : ascii) : option (numst * numacc) :=
  match st with
  | NSign =>
      d ← digit c;
      Some (if (d =? 0)%N then NZero else NInt, push_digit a d)
  | NZero =>
      if (code c =? 46)%N then Some (NPoint, a)
      else if is_e c then Some (NExpMark, a)
      else None
  | NInt =>
      match digit c with
      | Some d => Some (NInt, push_digit a d)
      | None =>
          if (code c =? 46)%N then Some (NPoint, a)
          else if is_e c then Some (NExpMark, a)
          else None
      end
  | NPoint => d ← digit c; Some (NFrac, push_frac a d)
  | NFrac =>
      match digit c with
      | Some d => Some (NFrac, push_frac a d)
      | None => if is_e c then Some (NExpMark, a) else None
      end
  | NExpMark =>
      match digit c with
      | Some d => Some (NExp, push_exp a d)
      | None =>
          if (code c =? 43)%N then Some (NExpSign, a)
          else if (code c =? 45)%N
          then Some (NExpSign, mkAcc (a_neg a) (a_mant a) (a_scale a) true (a_exp a))
          else None
      end
  | NExpSign => d ← digit c; Some (NExp, push_exp a d)
  | NExp => d ← digit c; Some (NExp, push_exp a d)
  end.

(** A byte met between tokens. *)
Definition start (c : ascii) : option (list token * mode) :=
  if is_ws c then Some ([], MSkip)
  else if (code c =? 91)%N then Some ([TLBracket], MSkip)
  else if (code c =? 93)%N then Some ([TRBracket], MSkip)
  else if (code c =? 123)%N then Some ([TLBrace], MSkip)
  else if (code c =? 125)%N then Some ([TRBrace], MSkip)
  else if (code c =? 44)%N then Some ([TComma], MSkip)
  else if (code c =? 58)%N then Some ([TColon], MSkip)
  else if Ascii.eqb c quote then Some ([], MStr "")
  else if (code c =? 45)%N
  then Some ([], MNum NSign (mkAcc true 0 0 false 0))
  else if (code c =? 110)%N then Some ([], MWord "ull" TNull)
  else if (code c =? 116)%N then Some ([], MWord "rue" TTrue)
  else if (code c =? 102)%N then Some ([], MWord "alse" TFalse)
  else
    d ← digit c;
    Some ([], MNum (if (d =? 0)%N then NZero else NInt) (push_digit acc0 d)).

Definition is_simple_escape (c : ascii) : bool :=
  Ascii.eqb c quote
  || ((code c =? 92) || (code c =? 47) || (code c =? 98) || (code c =? 102)
      || (code c =? 110) || (code c =? 114) || (code c =? 116))%N.

Definition lex_step (m : mode) (c : ascii) : option (list token * mode) :=
  match m with
  | MSkip => start c
  | MNum st a =>
      match num_step st a c with
      | Some (st', a') => Some ([], MNum st' a')
      | None =>
          if accepting st
          then '(ts, m') ← start c; Some (TNum (finish a) :: ts, m')
          else None
      end
  | MStr acc =>
      if Ascii.eqb c quote then Some ([TStr (String.rev acc)], MSkip)
      else if (code c =? 92)%N then Some ([], MEsc (String c acc))
      else if (code c <? 32)%N then None
      else Some ([], MStr (String c acc))
  | MEsc acc =>
      if is_simple_escape c then Some ([], MStr (String c acc))
      else if (code c =? 117)%N then Some ([], MHex 3 (String c acc))
      else None
  | MHex k acc =>
      if is_hex c
      then Some ([], match k with
                     | 0 => MStr (String c acc)
                     | S k' => MHex k' (String c acc)
                     end)
      else None
  | MWord rest t =>
      match rest with
      | EmptyString => None
      | String x rest' =>
          if Ascii.eqb c x
          then Some (match rest' with
                     | EmptyString => ([t], MSkip)
                     | String _ _ => ([], MWord rest' t)
                     end)
          else None
      end
  end.

(** At the end of the text. *)
Definition lex_end (m : mode) : option (list token) :=
  match m with
  | MSkip => Some []
  | MNum st a => if accepting st then Some [TNum (finish a)] else None
  | MStr _ | MEsc _ | MHex _ _ | MWord _ _ => None
  end.

Fixpoint lex_from (m : mode) (s : string) : option (list token) :=
  match s with
  | EmptyString => lex_end m
  | String c s' =>
      '(ts, m') ← lex_step m c;
      rest ← lex_from m' s';
      Some (ts ++ rest)
  end.

Definition lex (s : string) : option (list token) := lex_from MSkip s.

(** *** Parser: a pushdown automaton over the tokens *)

(** An open array or object with what it holds so far (reversed); an
    object also holds the key whose value is being read. *)
Inductive container :=
| CArr (acc : list value)
| CObj (acc : list (string * value)) (key : option string).

Inductive expect :=
| EValue          (* a value *)
| EValueOrClose   (* just after an opening bracket *)
| EKeyOrClose     (* just after an opening brace *)
| EKey            (* a key, after a comma in an object *)
| EColon
| ESep            (* a comma or the closing token *)
| EDone (v : value).

Definition pstate : Type := list container * expect.

(** A complete value goes to the innermost open container, or ends the
    text. *)
Definition deliver (v : value) (stack : list container) : option pstate :=
  match stack with
  | [] => Some ([], EDone v)
  | CArr acc :: st => Some (CArr (v :: acc) :: st, ESep)
  | CObj acc (Some k) :: st => Some (CObj ((k, v) :: acc) None :: st, ESep)
  | CObj _ None :: _ => None
  end.

Definition close_array (stack : list container) : option pstate :=
  match stack with
  | CArr acc :: st => deliver (JArr (List.rev acc)) st
  | _ => None
  end.

Definition close_object (stack : list container) : option pstate :=
  match stack with
  | CObj acc None :: st => deliver (JObj (List.rev acc)) st
  | _ => None
  end.

Definition value_token (stack : list container) (t : token) : option pstate :=
  match t with
  | TNull => deliver JNull stack
  | TTrue => deliver (JBool true) stack
  | TFalse => deliver (JBool false) stack
  | TNum n => deliver (JNum n) stack
  | TStr s => deliver (JStr s) stack
  | TLBracket => Some (CArr [] :: stack, EValueOrClose)
  | TLBrace => Some (CObj [] None :: stack, EKeyOrClose)
  | TRBracket | TRBrace | TComma | TColon => None
  end.

Definition key_token (stack : list container) (t : token) : option pstate :=
  match t, stack with
  | TStr k, CObj acc _ :: st => Some (CObj acc (Some k) :: st, EColon)
  | _, _ => None
  end.

Definition parse_step (ps : pstate) (t : token) : option pstate :=
  let '(stack, e) := ps in
  match e with
  | EDone _ => None
  | EValue => value_token stack t
  | EValueOrClose =>
      match t with
      | TRBracket => close_array stack
      | _ => value_token stack t
      end
  | EKey => key_token stack t
  | EKeyOrClose =>
      match t with
      | TRBrace => close_object stack
      | _ => key_token stack t
      end
  | EColon =>
      match t with
      | TColon => Some (stack, EValue)
      | _ => None
      end
  | ESep =>
      match t, stack with
      | TComma, CArr _ :: _ => Some (stack, EValue)
      | TComma, CObj _ _ :: _ => Some (stack, EKey)
      | TRBracket, _ => close_array stack
      | TRBrace, _ => close_object stack
      | _, _ => None
      end
  end.

Fixpoint parse_from (ps : pstate) (ts : list token) : option value :=
  match ts with
  | [] =>
      match ps with
      | ([], EDone v) => Some v
      | _ => None
      end
  | t :: ts' => ps' ← parse_step ps t; parse_from ps' ts'
  end.

(** [JSON.parse(s)]; [None] is the [SyntaxError]. *)
Definition parse (s : string) : option value :=
  ts ← lex s; parse_from ([], EValue) ts.

(** *** Comparing a parsed number with a row index

    [item.id === id] compares two doubles: the index, an integer that a
    double holds exactly, and the double nearest to the literal.  The
    literals that round to a given double fill an interval around it,
    which reaches half way to the neighbouring doubles; a literal on the
    boundary goes to the neighbour whose mantissa is even. *)

(** The literal is exactly [n]. *)
Definition exactly (x : number) (n : N) : bool :=
  (negb (neg x) || (mant x =? 0)%N)
  && (if (0 <=? exp10 x)%Z
      then (mant x * 10 ^ Z.to_N (exp10 x) =? n)%N
      else (mant x =? n * 10 ^ Z.to_N (- exp10 x))%N).

(** The literal rounds to a zero: its magnitude is at most [2^-1075],
    half of the least positive double.  Either sign will do, as
    [-0 === 0]. *)
Definition tiny (x : number) : bool :=
  (mant x =? 0)%N
  || ((exp10 x <? 0)%Z
      && (mant x * 2 ^ 1075 <=? 10 ^ Z.to_N (- exp10 x))%N).

(** The magnitude of the literal rounds to [n], for [0 < n < 2^53].
    With [2^k <= n < 2^(k+1)] the next double above [n] is
    [n + 2^(k-52)]; the one below is [n - 2^(k-52)], or [n - 2^(k-53)]
    when [n] is [2^k] itself.  Both sides of each comparison are
    multiplied by [2^54] and by the power of ten that clears the
    literal's negative exponent.  The mantissa of [n] is
    [n * 2^(52-k)], even unless [k = 52] and [n] is odd. *)
Definition nearest (x : number) (n : N) : bool :=
  let k := N.log2 n in
  let up := (2 ^ (k + 1))%N in
  let down := (if (n =? 2 ^ k)%N then 2 ^ k else 2 ^ (k + 1))%N in
  let scale := (10 ^ Z.to_N (- exp10 x))%N in
  let v := (mant x * 10 ^ Z.to_N (exp10 x) * 2 ^ 54)%N in
  let lo := ((n * 2 ^ 54 - down) * scale)%N in
  let hi := ((n * 2 ^ 54 + up) * scale)%N in
  if (k <? 52)%N || N.even n
  then (lo <=? v)%N && (v <=? hi)%N
  else (lo <? v)%N && (v <? hi)%N.

(** [n === v] for a row index [n] and a parsed number [v].  An array
    has fewer than [2^32] elements, so an index is far below [2^53];
    for the larger [n] that only [N] has, the comparison is the exact
    one. *)
Definition number_is (x : number) (n : N) : bool :=
  if (2 ^ 53 <=? n)%N then exactly x n
  else if (n =? 0)%N then tiny x
  else negb (neg x) && nearest x n.

Definition strict_eq_index (v : value) (n : nat) : bool :=
  match v with
  | JNum x => number_is x (N.of_nat n)
  | _ => false
  end.

(** The value of the integer literal that denotes [z]. *)
Definition int (z : Z) : value :=
  JNum (mkNumber (z <? 0)%Z (Z.abs_N z) 0).

End Json.

(** ** The corpus: raw rows and feedback entries *)

(** A row as [Papa.parse] with [header: true] yields it: a mapping from the
    column label to the cell, every cell a string, a label possibly
    absent. *)
Abbreviation Row := (gmap string string).

(** An entry object.  The [GET] route builds it without an [id] property,
    the [POST] route with one; [id = None] is the absent property. *)
Record FeedbackEntry := mkEntry {
  id : option nat;
  category : string;
  problem : string;
  solution1 : string;
  solution2 : string
}.

#[global] Instance FeedbackEntry_eq_dec : EqDecision FeedbackEntry.
Proof. solve_decision. Defined.

(** [row[label]]: an absent label reads as [undefined], which [||] treats
    like the empty string. *)
Definition cell (row : Row) (label : string) : string :=
  default "" (row !! label).

(** The filter predicate of both routes:
    [item.problem && (item.solution1 || item.solution2)]. *)
Definition keep (item : FeedbackEntry) : bool :=
  JsString.truthy (problem item)
  && JsString.truthy (JsString.or_else (solution1 item) (solution2 item)).

(** [xs.map((x, index) => f(x, index))]. *)
Fixpoint map_index {A B} (f : A → nat → B) (from : nat) (xs : list A) : list B :=
  match xs with
  | [] => []
  | x :: xs' => f x from :: map_index f (S from) xs'
  end.

(** What [fetch] of the sheet export gives: a rejected promise (from
    [fetch] itself or from [response.text()]), or a response with its [ok]
    flag and its text. *)
Inductive fetched :=
| FetchRejects (message : string)
| FetchResponse (ok : bool) (text : string).

Module FeedbackRoute.

(** The object literal of [route.ts], lines 19-24. *)
Definition entry_of_row (row : Row) : FeedbackEntry :=
  {| id := None;
     category := JsString.or_else (cell row "대분류") "기타";
     problem := JsString.or_else (cell row "문제점") "";
     solution1 :=
       JsString.or_else (cell row "솔루션 (버전1)")
         (JsString.or_else (cell row "솔루션") "");
     solution2 := JsString.or_else (cell row "솔루션 (버전2)") "" |}.

(** [parsed.data.map(...).filter(...)]. *)
Definition data (rows : list Row) : list FeedbackEntry :=
  List.filter keep (List.map entry_of_row rows).

Inductive Response :=
| Listed (data : list FeedbackEntry)         (* [NextResponse.json(data)] *)
| Unavailable (status : nat) (error : string).

(** The handler: the text of the response is parsed whatever its status
    is; only a rejected [fetch] reaches the [catch]. *)
Definition GET (Papa_parse : string → list Row) (sheet : fetched) : Response :=
  match sheet with
  | FetchRejects _ => Unavailable 500 "Failed to fetch data"
  | FetchResponse _ csvText => Listed (data (Papa_parse csvText))
  end.

End FeedbackRoute.

(** ** The ranking endpoint: the [POST] handler of the AI search route *)

Module AiSearchRoute.

Definition SHEET_ID : string := "1kbOoBSrI1yHj0yEtexhFA6H_QuJL2IkzXFh9uaCSKsQ".

Definition CSV_URL : string :=
  "https://docs.google.com/spreadsheets/d/" +:+ SHEET_ID +:+ "/export?format=csv".

Definition MODEL : string := "gemini-2.0-flash".

(** *** What the handler does to the outside, and what can be thrown *)

Inductive exn :=
| Error (message : string)      (* [new Error(message)], thrown by the handler *)
| TypeError                     (* raised by the engine *)
| SyntaxError                   (* [request.json()] on a body that is not JSON *)
| Failure (message : string).   (* raised by [fetch] or by the generative model *)

Inductive effect :=
| Fetch (url : string)
| GenerateContent (model prompt : string).

Inductive outcome (A : Type) :=
| Return (a : A)
| Throw (e : exn).
Arguments Return {A} a.
Arguments Throw {A} e.

(** A computation appends the effects it performs to the trace and ends
    in a value or in an exception.  Console output is left out. *)
Definition M (A : Type) : Type := list effect → outcome A * list effect.

#[global] Instance M_ret : MRet M := λ A a tr, (Return a, tr).

#[global] Instance M_bind : MBind M := λ A B k m tr,
  match m tr with
  | (Return a, tr') => k a tr'
  | (Throw e, tr') => (Throw e, tr')
  end.

Definition throw {A} (e : exn) : M A := λ tr, (Throw e, tr).

Definition perform (e : effect) : M unit := λ tr, (Return (), tr ++ [e]).

(** *** The world the handler runs in *)

Inductive generated :=
| GenerateThrows (message : string)
| GenerateText (text : string).

Record World := mkWorld {
  request_body : option Json.value;   (* [None]: the body is not JSON *)
  GEMINI_API_KEY : option string;     (* [process.env.GEMINI_API_KEY] *)
  sheet : fetched;                    (* what the sheet export answers *)
  gemini : string → generated         (* the model's answer to a prompt *)
}.

(** *** The response *)

Inductive Payload :=
| ErrorBody (error : string) (details : option exn)
| Entries (items : list FeedbackEntry).

Record Response := mkResponse { status : nat; payload : Payload }.

(** *** The pieces of the handler *)

(** The object literal of lines 38-43. *)
Definition entry_of_row (row : Row) (index : nat) : FeedbackEntry :=
  {| id := Some index;
     category := JsString.or_else (cell row "대분류") "기타";
     problem := JsString.or_else (cell row "문제점") "";
     solution1 :=
       JsString.or_else (cell row "솔루션 (버전1)")
         (JsString.or_else (cell row "솔루션") "");
     solution2 := JsString.or_else (cell row "솔루션 (버전2)") "" |}.

(** [parsed.data.map((row, index) => ...).filter(...)]. *)
Definition data (rows : list Row) : list FeedbackEntry :=
  List.filter keep (map_index entry_of_row 0 rows).

Definition nl : string := String "010"%char "".
Definition dq : string := String Json.quote "".

Definition show_id (i : option nat) : string :=
  match i with
  | Some n => pretty n
  | None => "undefined"
  end.

Definition problemsList (data : list FeedbackEntry) : string :=
  String.concat nl
    (List.map (λ item, "ID: " +:+ show_id (id item) +:+ ", Problem: " +:+ problem item) data).

(** The template literal of lines 53-65. *)
Definition prompt (query : string) (data : list FeedbackEntry) : string :=
  nl +:+ "        You are a helpful assistant for a feedback encyclopedia."
  +:+ nl +:+ "        The user has provided a problem description or a draft text: "
  +:+ dq +:+ query +:+ dq
  +:+ nl +:+ "        "
  +:+ nl +:+ "        Here is a list of known problem categories and descriptions:"
  +:+ nl +:+ "        " +:+ problemsList data
  +:+ nl
  +:+ nl +:+ "        Task: Identify the top 5 most relevant problems from the list that match the user's input."
  +:+ nl +:+ "        If the input is a draft text, find the problems that this text likely suffers from."
  +:+ nl +:+ "        Return ONLY a JSON array of the top 5 relevant IDs, sorted by relevance."
  +:+ nl +:+ "        Example output: [12, 4, 0, 15, 8]"
  +:+ nl +:+ "        DO NOT include any explanation, markdown formatting, or code blocks. Just the JSON array."
  +:+ nl +:+ "        ".

(** Lines 81-83: the clean-up before [JSON.parse]. *)
Definition sanitize (responseText : string) : string :=
  let cleanedText :=
    JsString.trim
      (JsString.remove_all "```" (JsString.remove_all "```json" responseText)) in
  if JsString.startsWith "json" cleanedText
  then JsString.trim (JsString.slice 4 cleanedText)
  else cleanedText.

(** [item.id === id]. *)
Definition id_is (v : Json.value) (item : FeedbackEntry) : bool :=
  match id item with
  | Some n => Json.strict_eq_index v n
  | None => false
  end.

(** Lines 97-99: [sortedIds.map(id => data.find(...)).filter(Boolean)]. *)
Definition sortedData (sortedIds : list Json.value) (data : list FeedbackEntry)
  : list FeedbackEntry :=
  omap (λ v, List.find (id_is v) data) sortedIds.

(** The [catch] of lines 103-108. *)
Definition catch (r : outcome Response * list effect) : Response * list effect :=
  match r with
  | (Return resp, tr) => (resp, tr)
  | (Throw e, tr) => (mkResponse 500 (ErrorBody "Internal Server Error" (Some e)), tr)
  end.

(** [const { query } = body]: destructuring [null] throws; a primitive
    or an array has no such property. *)
Definition destructure_query (body : Json.value) : M (option Json.value) :=
  match body with
  | Json.JNull => throw TypeError
  | Json.JObj members => mret (Json.get "query" members)
  | _ => mret None
  end.

Section Handler.

(** [Papa.parse(csvText, { header: true, skipEmptyLines: true }).data]. *)
Variable Papa_parse : string → list Row.

Variable w : World.

Definition request_json : M Json.value :=
  match request_body w with
  | Some body => mret body
  | None => throw SyntaxError
  end.

Definition fetch (url : string) : M (bool * string) :=
  perform (Fetch url);;
  match sheet w with
  | FetchRejects message => throw (Failure message)
  | FetchResponse ok text => mret (ok, text)
  end.

(** [model.generateContent(prompt)] followed by
    [result.response.text()]. *)
Definition generateContent (model prompt : string) : M string :=
  perform (GenerateContent model prompt);;
  match gemini w prompt with
  | GenerateThrows message => throw (Failure message)
  | GenerateText text => mret text
  end.

(** Lines 28-101, reached with a truthy [query]. *)
Definition search (query : string) : M Response :=
  if negb (JsString.truthy (default "" (GEMINI_API_KEY w)))
  then mret (mkResponse 503 (ErrorBody "API Key missing on server" None))
  else
    '(ok, csvText) ← fetch CSV_URL;
    if negb ok then throw (Error "Failed to fetch data source")
    else
      let data := data (Papa_parse csvText) in
      responseText ← generateContent MODEL (prompt query data);
      match Json.parse (sanitize responseText) with
      | None => throw (Error "Failed to parse AI response")
      | Some (Json.JArr sortedIds) =>
          mret (mkResponse 200 (Entries (sortedData sortedIds data)))
      | Some _ => throw TypeError    (* [sortedIds.map] is not a function *)
      end.

(** The body of the [try] block.  Line 17 evaluates
    [query?.substring(0, 50)]: [undefined] and [null] short-circuit, a
    string has the method, any other value has not and the call
    throws.  Line 19 then tests [!query]. *)
Definition handler : M Response :=
  body ← request_json;
  query ← destructure_query body;
  match query with
  | None | Some Json.JNull =>
      mret (mkResponse 400 (ErrorBody "Query is required" None))
  | Some (Json.JStr q) =>
      if JsString.truthy q then search q
      else mret (mkResponse 400 (ErrorBody "Query is required" None))
  | Some _ => throw TypeError
  end.

(** The handler under its [catch], run from the empty trace. *)
Definition POST : Response * list effect := catch (handler []).

End Handler.

Definition is_generate (e : effect) : bool :=
  match e with
  | GenerateContent _ _ => true
  | Fetch _ => false
  end.

(** How many times a run called the ranking service. *)
Definition service_calls (tr : list effect) : nat :=
  length (List.filter is_generate tr).

End AiSearchRoute.

(** ** The page component: filter precedence and the ranking request *)

Module Page.

(** What the page shows in an [alert]. *)
Inductive Alert :=
| KeyNotConfigured    (* the 503 branch *)
| SearchFailed.       (* the [catch] branch *)

(** The state of the component that the retrieval logic reads and
    writes, together with the [POST] requests that were sent and have not
    been answered yet (the query each one carries) and the alerts shown.
    The expand, copy and version states of the cards are left out. *)
Record State := mkState {
  data : list FeedbackEntry;
  loading : bool;
  searchQuery : string;
  selectedCategory : string;
  aiAnalysisResults : option (list FeedbackEntry);
  isAiSearching : bool;
  in_flight : list string;
  alerts : list Alert
}.

(** [useState] initial values. *)
Definition initial : State :=
  mkState [] true "" "All" None false [] [].

(** Truthiness of [aiAnalysisResults]: [null] is falsy, an array is an
    object and so truthy, the empty one too. *)
Definition truthy_results (r : option (list FeedbackEntry)) : bool :=
  match r with
  | None => false
  | Some _ => true
  end.

(** [Array.from(new Set(xs))]: the elements of [xs] in order of first
    appearance; [seen] holds those already met. *)
Fixpoint unique_from (seen xs : list string) : list string :=
  match xs with
  | [] => []
  | x :: xs' =>
      if bool_decide (x ∈ seen) then unique_from seen xs'
      else x :: unique_from (x :: seen) xs'
  end.

(** Lines 42-45. *)
Definition categories (s : State) : list string :=
  "All" :: unique_from [] (List.map category (data s)).

Section Filter.

(** [String.prototype.toLowerCase]. *)
Variable toLowerCase : string → string.

Definition matches (searchQuery selectedCategory : string) (item : FeedbackEntry) : bool :=
  let q := toLowerCase searchQuery in
  let matchesCategory :=
    String.eqb selectedCategory "All" || String.eqb (category item) selectedCategory in
  let matchesSearch :=
    JsString.includes q (toLowerCase (problem item))
    || JsString.includes q (toLowerCase (solution1 item))
    || (JsString.truthy (solution2 item)
        && JsString.includes q (toLowerCase (solution2 item)))
    || JsString.includes q (toLowerCase (category item)) in
  matchesCategory && matchesSearch.

(** Lines 48-65. *)
Definition filteredData (s : State) : list FeedbackEntry :=
  match aiAnalysisResults s with
  | Some results => results    (* truthy, the empty array included *)
  | None => List.filter (matches (searchQuery s) (selectedCategory s)) (data s)
  end.

End Filter.

(** *** Handlers *)

Definition setAiAnalysisResults (r : option (list FeedbackEntry)) (s : State) : State :=
  mkState (data s) (loading s) (searchQuery s) (selectedCategory s) r
    (isAiSearching s) (in_flight s) (alerts s).

Definition setIsAiSearching (b : bool) (s : State) : State :=
  mkState (data s) (loading s) (searchQuery s) (selectedCategory s)
    (aiAnalysisResults s) b (in_flight s) (alerts s).

Definition setSearchQuery (q : string) (s : State) : State :=
  mkState (data s) (loading s) q (selectedCategory s) (aiAnalysisResults s)
    (isAiSearching s) (in_flight s) (alerts s).

Definition setSelectedCategory (c : string) (s : State) : State :=
  mkState (data s) (loading s) (searchQuery s) c (aiAnalysisResults s)
    (isAiSearching s) (in_flight s) (alerts s).

Definition set_in_flight (l : list string) (s : State) : State :=
  mkState (data s) (loading s) (searchQuery s) (selectedCategory s)
    (aiAnalysisResults s) (isAiSearching s) l (alerts s).

Definition alert (a : Alert) (s : State) : State :=
  mkState (data s) (loading s) (searchQuery s) (selectedCategory s)
    (aiAnalysisResults s) (isAiSearching s) (in_flight s) (alerts s ++ [a]).

(** [handleAiSearch] up to its [await fetch(...)]: lines 85-96. *)
Definition handleAiSearch (s : State) : State :=
  if negb (JsString.truthy (JsString.trim (searchQuery s))) then s
  else
    set_in_flight (in_flight s ++ [searchQuery s])
      (setAiAnalysisResults None (setIsAiSearching true s)).

(** How a request ends. *)
Inductive Reply :=
| Ok (results : list FeedbackEntry)   (* [res.ok], the body an array *)
| NotOk (status : nat)                (* [!res.ok] *)
| Rejected.                           (* [fetch] or [res.json()] throws *)

(** [handleAiSearch] after the [await]: lines 98-116. *)
Definition resume (r : Reply) (s : State) : State :=
  setIsAiSearching false
    match r with
    | Ok results => setSelectedCategory "All" (setAiAnalysisResults (Some results) s)
    | NotOk status =>
        if (status =? 503)%nat then alert KeyNotConfigured s else alert SearchFailed s
    | Rejected => alert SearchFailed s
    end.

Definition clearAiResults (s : State) : State :=
  setSearchQuery "" (setAiAnalysisResults None s).

(** *** Events *)

Inductive Event :=
| Loaded (jsonData : option (list FeedbackEntry))  (* the initial fetch ends *)
| ClickCategory (category : string)
| Change (value : string)                          (* typing in the input *)
| KeyDown (key : string)                           (* a key in the input *)
| ClickAiSearch
| ClickClear
| Settle (i : nat) (r : Reply).                    (* request [i] is answered *)

(** One event.  While [loading] the page renders the spinner only, so no
    control exists; a category button exists for each of [categories];
    the search button carries [disabled={isAiSearching}]; the clear
    button is rendered only when [aiAnalysisResults] is truthy. *)
Definition step (s : State) (e : Event) : State :=
  match e with
  | Loaded jsonData =>
      mkState (default (data s) jsonData) false (searchQuery s) (selectedCategory s)
        (aiAnalysisResults s) (isAiSearching s) (in_flight s) (alerts s)
  | Settle i r =>
      match in_flight s !! i with
      | Some _ => resume r (set_in_flight (delete i (in_flight s)) s)
      | None => s
      end
  | _ =>
      if loading s then s
      else
        match e with
        | ClickCategory c =>
            if bool_decide (c ∈ categories s)
            then setAiAnalysisResults None (setSelectedCategory c s)
            else s
        | Change value =>
            let s' := setSearchQuery value s in
            if String.eqb value "" then setAiAnalysisResults None s' else s'
        | KeyDown key =>
            if String.eqb key "Enter" then handleAiSearch s else s
        | ClickAiSearch =>
            if isAiSearching s then s else handleAiSearch s
        | ClickClear =>
            if truthy_results (aiAnalysisResults s) then clearAiResults s else s
        | Loaded _ | Settle _ _ => s
        end
  end.

Definition run (s : State) (es : list Event) : State := foldl step s es.

End Page.

(** * Vocabulary of the properties *)

Import AiSearchRoute.

(** ** Corpus *)

(** The entry invariant of the corpus. *)
Definition entry_invariant (e : FeedbackEntry) : Prop :=
  problem e ≠ "" ∧ (solution1 e ≠ "" ∨ solution2 e ≠ "").

(** An entry written back as a row under the column mapping of the routes. *)
Definition to_row (e : FeedbackEntry) : Row :=
  {[ "대분류" := category e;
     "문제점" := problem e;
     "솔루션 (버전1)" := solution1 e;
     "솔루션 (버전2)" := solution2 e ]}.

(** A row whose problem cell is filled and whose solution cells are not,
    a row that passes the filter, and the entry the [POST] route makes of
    the latter at index 1. *)
Definition blank_row : Row := {[ "문제점" := "p" ]}.
Definition good_row : Row := {[ "문제점" := "p"; "솔루션" := "s" ]}.
Definition good_entry_1 : FeedbackEntry := mkEntry (Some 1) "기타" "p" "s" "".

(** Entries with ids 1, 2 and 3, after a row that is dropped. *)
Definition four_rows : list Row :=
  [blank_row;
   {[ "문제점" := "p1"; "솔루션" := "s" ]};
   {[ "문제점" := "p2"; "솔루션" := "s" ]};
   {[ "문제점" := "p3"; "솔루션 (버전2)" := "s" ]}].

(** ** Requests and runs of the ranking endpoint *)

(** The body the page sends: [JSON.stringify({ query })]. *)
Definition request (query : string) : Json.value :=
  Json.JObj [("query", Json.JStr query)].


(** The credential is set. *)
Definition configured (key : option string) : bool :=
  JsString.truthy (default "" key).

(** A world in which the request carries [query], the credential is set
    and the sheet is served. *)
Definition ready (query csv : string) (g : string → generated) : World :=
  mkWorld (Some (request query)) (Some "key") (FetchResponse true csv) g.

(** A run that gets as far as the model: the two effects, in order, and
    what the answer is turned into. *)
Definition after_answer (d : list FeedbackEntry) (answer : generated) : outcome Response :=
  match answer with
  | GenerateThrows message => Throw (Failure message)
  | GenerateText raw =>
      match Json.parse (sanitize raw) with
      | None => Throw (Error "Failed to parse AI response")
      | Some (Json.JArr sortedIds) => Return (mkResponse 200 (Entries (sortedData sortedIds d)))
      | Some _ => Throw TypeError
      end
  end.

(** The ids of the response that name a corpus entry. *)
Definition known (d : list FeedbackEntry) (z : Z) : bool :=
  bool_decide (0 ≤ z)%Z && bool_decide (Some (Z.to_nat z) ∈ id <$> d).

(** The answer of the example: the array between a language-tagged opening
    fence and a closing fence, each on a line of its own. *)
Definition fenced_answer : string :=
  "```json" +:+ nl +:+ "[3,1,2]" +:+ nl +:+ "```".

(** ** Page states *)

(** A corpus with one entry in the category of the example, and a state in
    which the empty ranking result is held while that category is selected. *)
Definition programming_entry : FeedbackEntry :=
  mkEntry None "Programming" "bug report" "s" "".

Definition holding_empty : Page.State :=
  Page.mkState [programming_entry] false "" "Programming" (Some []) false [] [].

(** ** Strings *)

(** [t] occurs in [s] as a contiguous piece. *)
Definition factor_of (t s : string) : Prop := ∃ u v, s = u +:+ t +:+ v.

(** The first white-space character of [s] removed, if [s] starts with
    one; the reading of [JsString.trimStart] one character at a time. *)
Definition head_ws (s : string) : option string :=
  match s with
  | EmptyString => None
  | String a s1 =>
      if JsString.ws1 a then Some s1
      else
        match s1 with
        | EmptyString => None
        | String b s2 =>
            if JsString.ws2 a b then Some s2
            else
              match s2 with
              | EmptyString => None
              | String c s3 => if JsString.ws3 a b c then Some s3 else None
              end
        end
  end.

(** The same on the reversed bytes, for [JsString.trimStart_rev]. *)
Definition head_ws_rev (s : string) : option string :=
  match s with
  | EmptyString => None
  | String a s1 =>
      if JsString.ws1 a then Some s1
      else
        match s1 with
        | EmptyString => None
        | String b s2 =>
            if JsString.ws2 b a then Some s2
            else
              match s2 with
              | EmptyString => None
              | String c s3 => if JsString.ws3 c b a then Some s3 else None
              end
        end
  end.

(** No white space at either end. *)
Definition trimmed (s : string) : Prop :=
  head_ws s = None ∧ head_ws_rev (String.rev s) = None.

(** * Properties *)

(** ** The normalizer *)

Section Normalizer.

Lemma truthy_nonempty (s : string) : JsString.truthy s = true ↔ s ≠ "".
Proof. destruct s; simpl; split; congruence. Qed.

Lemma or_else_empty_r (s : string) : JsString.or_else s "" = s.
Proof. by destruct s. Qed.

Lemma or_else_nonempty (a b : string) : a ≠ "" → JsString.or_else a b = a.
Proof. by destruct a. Qed.

Lemma truthy_or_else (a b : string) :
  JsString.truthy (JsString.or_else a b) = true ↔ a ≠ "" ∨ b ≠ "".
Proof.
  destruct a as [|c a]; simpl.
  - rewrite truthy_nonempty. split; [by right | by intros [?|?]].
  - split; [by left | done].
Qed.

Lemma keep_invariant (e : FeedbackEntry) : keep e = true ↔ entry_invariant e.
Proof.
  unfold keep, entry_invariant.
  by rewrite andb_true_iff, truthy_nonempty, truthy_or_else.
Qed.

Lemma elem_of_filter_keep (e : FeedbackEntry) (l : list FeedbackEntry) :
  e ∈ List.filter keep l ↔ e ∈ l ∧ entry_invariant e.
Proof.
  rewrite !list_elem_of_In, filter_In. by rewrite keep_invariant.
Qed.

Lemma map_index_lookup {A B} (f : A → nat → B) (k : nat) (xs : list A) (i : nat) :
  map_index f k xs !! i = (λ x, f x (k + i)) <$> xs !! i.
Proof.
  revert k i. induction xs as [|x xs IH]; intros k [|i]; simpl; try done.
  - by rewrite Nat.add_0_r.
  - rewrite IH. by replace (S k + i) with (k + S i) by lia.
Qed.

Lemma elem_of_map_index {A B} (f : A → nat → B) (xs : list A) (y : B) :
  y ∈ map_index f 0 xs ↔ ∃ i x, xs !! i = Some x ∧ y = f x i.
Proof.
  rewrite list_elem_of_lookup. split.
  - intros [i Hi]. rewrite map_index_lookup in Hi.
    destruct (xs !! i) as [x|] eqn:Hx; simplify_eq/=. by exists i, x.
  - intros (i & x & Hx & ->). exists i. by rewrite map_index_lookup, Hx.
Qed.

Lemma map_index_ids (k : nat) (rows : list Row) :
  id <$> map_index AiSearchRoute.entry_of_row k rows = Some <$> seq k (length rows).
Proof.
  revert k. induction rows as [|row rows IH]; intros k; simpl; [done|].
  by rewrite IH.
Qed.

Lemma filter_fixed {A} (P : A → bool) (l : list A) :
  Forall (λ x, P x = true) l → List.filter P l = l.
Proof.
  induction 1 as [|x l Hx Hl IH]; simpl; [done|]. by rewrite Hx, IH.
Qed.

Lemma filter_sublist {A} (P : A → bool) (l : list A) :
  List.filter P l `sublist_of` l.
Proof.
  induction l as [|x l IH]; simpl; [done|].
  destruct (P x); by constructor.
Qed.

Lemma category_nonempty (row : Row) :
  category (FeedbackRoute.entry_of_row row) ≠ "".
Proof. simpl. by destruct (cell row "대분류"). Qed.

Lemma entry_of_to_row (e : FeedbackEntry) :
  id e = None → category e ≠ "" → FeedbackRoute.entry_of_row (to_row e) = e.
Proof.
  intros Hid Hcat. destruct e as [i c p s1 s2]; simpl in *; subst i.
  unfold FeedbackRoute.entry_of_row, to_row, cell; simpl.
  repeat (rewrite ?lookup_insert_eq, ?lookup_insert_ne, ?lookup_singleton_eq,
            ?lookup_singleton_ne by discriminate);
    simpl.
  rewrite !or_else_empty_r. by rewrite or_else_nonempty.
Qed.

Lemma data_ids_NoDup (rows : list Row) : NoDup (id <$> AiSearchRoute.data rows).
Proof.
  unfold AiSearchRoute.data.
  eapply sublist_NoDup; [|apply fmap_sublist, filter_sublist].
  rewrite map_index_ids. apply NoDup_fmap; [apply _|apply NoDup_seq].
Qed.

End Normalizer.

(** C4. Every entry of the normalized corpus, in the listing route and in
    the ranking route alike, has a non-empty problem and at least one
    non-empty solution; the corpus is exactly the entries of the raw rows
    that satisfy this, so a row whose entry fails it is absent from the
    output (and nothing is raised for it: the computation is a filter). *)
Theorem C4_normalized_corpus_invariant (rows : list Row) :
  Forall entry_invariant (FeedbackRoute.data rows)
  ∧ Forall entry_invariant (AiSearchRoute.data rows)
  ∧ (∀ e, e ∈ FeedbackRoute.data rows
          ↔ (∃ row, row ∈ rows ∧ e = FeedbackRoute.entry_of_row row) ∧ entry_invariant e)
  ∧ (∀ e, e ∈ AiSearchRoute.data rows
          ↔ (∃ i row, rows !! i = Some row ∧ e = AiSearchRoute.entry_of_row row i)
            ∧ entry_invariant e).
Proof.
  assert (Hget : ∀ e, e ∈ FeedbackRoute.data rows
          ↔ (∃ row, row ∈ rows ∧ e = FeedbackRoute.entry_of_row row) ∧ entry_invariant e).
  { intros e. unfold FeedbackRoute.data.
    rewrite elem_of_filter_keep, list_elem_of_In, in_map_iff.
    setoid_rewrite <- list_elem_of_In.
    split; intros [(row & H1 & H2) ?]; (split; [exists row|]); done. }
  assert (Hpost : ∀ e, e ∈ AiSearchRoute.data rows
          ↔ (∃ i row, rows !! i = Some row ∧ e = AiSearchRoute.entry_of_row row i)
            ∧ entry_invariant e).
  { intros e. unfold AiSearchRoute.data.
    by rewrite elem_of_filter_keep, elem_of_map_index. }
  split; [|split; [|split]]; [| |exact Hget|exact Hpost].
  - apply Forall_forall. intros e He. by apply Hget in He as [_ ?].
  - apply Forall_forall. intros e He. by apply Hpost in He as [_ ?].
Qed.

(** C5, as the code has it. In the ranking route every entry carries the
    index of its row in the raw sequence, counted from 0, and so does every
    entry the route returns for any array of ids; the ids of one pass are
    pairwise distinct and are not renumbered after the filter (a dropped
    first row leaves the second with id 1).  The entries of the listing
    route carry no id. *)
Theorem C5_ids_are_raw_indices_in_ranking_route (rows : list Row) :
  let from_row e :=
    ∃ i row, rows !! i = Some row ∧ e = AiSearchRoute.entry_of_row row i ∧ id e = Some i in
  Forall from_row (AiSearchRoute.data rows)
  ∧ (∀ sortedIds,
       Forall from_row (AiSearchRoute.sortedData sortedIds (AiSearchRoute.data rows)))
  ∧ NoDup (id <$> AiSearchRoute.data rows)
  ∧ AiSearchRoute.data [blank_row; good_row] = [good_entry_1]
  ∧ Forall (λ e, id e = None) (FeedbackRoute.data rows).
Proof.
  intros from_row.
  assert (Hdata : ∀ e, e ∈ AiSearchRoute.data rows → from_row e).
  { intros e He. unfold AiSearchRoute.data in He.
    apply elem_of_filter_keep in He as [He _].
    apply elem_of_map_index in He as (i & row & Hrow & ->). by exists i, row. }
  split; [|split; [|split; [|split]]].
  - by apply Forall_forall.
  - intros sortedIds. apply Forall_forall. intros e He.
    unfold AiSearchRoute.sortedData in He.
    apply list_elem_of_omap in He as (v & _ & Hfind).
    apply find_some in Hfind as [Hin _]. by apply Hdata, list_elem_of_In.
  - apply data_ids_NoDup.
  - done.
  - apply Forall_forall. intros e He. unfold FeedbackRoute.data in He.
    apply elem_of_filter_keep in He as [He _].
    apply list_elem_of_In, in_map_iff in He as (row & <- & _). done.
Qed.

(** C5, as stated, fails on the listing route: the one entry it returns
    for a single good row has no id, so none equal to the row's index. *)
Lemma C5_listing_entries_have_no_id :
  ¬ (∀ (rows : list Row) (e : FeedbackEntry),
       e ∈ FeedbackRoute.data rows → ∃ i row, rows !! i = Some row ∧ id e = Some i)
  ∧ FeedbackRoute.GET (λ _, [good_row]) (FetchResponse true "csv")
    = FeedbackRoute.Listed [mkEntry None "기타" "p" "s" ""].
Proof.
  split; [|done].
  intros H.
  destruct (H [good_row] (mkEntry None "기타" "p" "s" "")) as (i & row & _ & Hi).
  - by apply list_elem_of_singleton.
  - discriminate Hi.
Qed.

(** C6. Writing the listing route's output back as rows under the same
    column mapping and normalizing again gives the same sequence. *)
Theorem C6_normalization_idempotent (rows : list Row) :
  FeedbackRoute.data (to_row <$> FeedbackRoute.data rows) = FeedbackRoute.data rows.
Proof.
  assert (Hl : Forall (λ e, keep e = true ∧ id e = None ∧ category e ≠ "")
                 (FeedbackRoute.data rows)).
  { apply Forall_forall. intros e He. unfold FeedbackRoute.data in He.
    apply list_elem_of_In, filter_In in He as [He Hk].
    apply in_map_iff in He as (row & <- & _).
    split; [done|]. split; [done|]. apply category_nonempty. }
  generalize dependent (FeedbackRoute.data rows). intros l Hl.
  unfold FeedbackRoute.data.
  replace (List.map FeedbackRoute.entry_of_row (to_row <$> l)) with l.
  - apply filter_fixed. eapply Forall_impl; [exact Hl|]. by intros e [? _].
  - induction Hl as [|e l (Hk & Hid & Hcat) Hl IH]; simpl; [done|].
    rewrite entry_of_to_row by done. by f_equal.
Qed.

(** ** Numbers of the answer against row indices *)

Section Numbers.

(** The half-widths of the interval of the literals that round to [n],
    in units of [2^-54]. *)
Lemma nearest_bounds (n : N) :
  (0 < n)%N → (n < 2 ^ 53)%N →
  let k := N.log2 n in
  (0 < (if (n =? 2 ^ k)%N then 2 ^ k else 2 ^ (k + 1)) ≤ 2 ^ (k + 1))%N
  ∧ (0 < 2 ^ (k + 1) ≤ 2 ^ 53)%N.
Proof.
  intros Hpos Hlt k.
  assert (Hk : (k + 1 ≤ 53)%N).
  { assert (k < 53)%N by (apply N.log2_lt_pow2; assumption). lia. }
  assert (H1 : (2 ^ k ≠ 0)%N) by (apply N.pow_nonzero; lia).
  assert (H2 : (2 ^ k ≤ 2 ^ (k + 1))%N) by (apply N.pow_le_mono_r; lia).
  assert (H3 : (2 ^ (k + 1) ≤ 2 ^ 53)%N) by (apply N.pow_le_mono_r; lia).
  split; [|lia]. destruct (n =? 2 ^ k)%N; lia.
Qed.

Lemma nearest_widths (n : N) :
  (0 < n)%N → (n < 2 ^ 53)%N →
  let k := N.log2 n in
  let up := (2 ^ (k + 1))%N in
  let down := (if (n =? 2 ^ k)%N then 2 ^ k else 2 ^ (k + 1))%N in
  (0 < down ≤ up)%N ∧ (up ≤ 2 ^ 53)%N
  ∧ ((k <? 52)%N = true → (up ≤ 2 ^ 52)%N).
Proof.
  intros Hpos Hlt k up down.
  destruct (nearest_bounds n Hpos Hlt) as [Hd Hu]; cbv zeta in Hd, Hu.
  subst k up down.
  split; [lia|]. split; [lia|].
  intros Hk%N.ltb_lt. apply N.pow_le_mono_r; lia.
Qed.

(** What [Json.nearest] decides: the literal lies in the interval, and on
    its boundary only when the mantissa of [n] is even. *)
Lemma nearest_spec (x : Json.number) (n : N) :
  Json.nearest x n = true →
  let k := N.log2 n in
  let up := (2 ^ (k + 1))%N in
  let down := (if (n =? 2 ^ k)%N then 2 ^ k else 2 ^ (k + 1))%N in
  let scale := (10 ^ Z.to_N (- Json.exp10 x))%N in
  let v := (Json.mant x * 10 ^ Z.to_N (Json.exp10 x) * 2 ^ 54)%N in
  ((n * 2 ^ 54 - down) * scale ≤ v ≤ (n * 2 ^ 54 + up) * scale)%N
  ∧ ((v = (n * 2 ^ 54 - down) * scale ∨ v = (n * 2 ^ 54 + up) * scale)%N →
     (k <? 52)%N || N.even n = true).
Proof.
  intros H; cbv zeta. unfold Json.nearest in H.
  destruct ((N.log2 n <? 52)%N || N.even n).
  - apply andb_true_iff in H as [H1%N.leb_le H2%N.leb_le]. auto.
  - apply andb_true_iff in H as [H1%N.ltb_lt H2%N.ltb_lt]. split; lia.
Qed.

(** The intervals of two indices do not meet: a literal is equal to at
    most one index. *)
Lemma number_is_ordered (x : Json.number) (n m : N) :
  (n < m)%N → Json.number_is x n = true → Json.number_is x m = true → False.
Proof.
  intros Hnm. unfold Json.number_is.
  assert (Hs : (0 < 10 ^ Z.to_N (- Json.exp10 x))%N).
  { assert (10 ^ Z.to_N (- Json.exp10 x) ≠ 0)%N by (apply N.pow_nonzero; lia). lia. }
  destruct (N.leb_spec (2 ^ 53) m) as [Hm|Hm].
  - (* [m] is compared exactly *)
    destruct (N.leb_spec (2 ^ 53) n) as [Hn|Hn].
    { unfold Json.exactly. intros [_ H1]%andb_true_iff [_ H2]%andb_true_iff.
      destruct (0 <=? Json.exp10 x)%Z.
      - apply N.eqb_eq in H1, H2. lia.
      - apply N.eqb_eq in H1, H2. rewrite H1 in H2.
        apply N.mul_cancel_r in H2; lia. }
    destruct (N.eqb_spec n 0) as [H0|H0].
    { unfold Json.tiny, Json.exactly.
      intros Ht [_ He]%andb_true_iff.
      destruct (Z.leb_spec 0 (Json.exp10 x)) as [Hexp|Hexp].
      - apply N.eqb_eq in He.
        apply orb_true_iff in Ht as [Ht%N.eqb_eq|[Ht%Z.ltb_lt _]%andb_true_iff];
          [rewrite Ht in He; simpl in He|]; lia.
      - apply N.eqb_eq in He.
        apply orb_true_iff in Ht as [Ht%N.eqb_eq|[_ Ht%N.leb_le]%andb_true_iff].
        + rewrite Ht in He. symmetry in He. apply N.eq_mul_0 in He. lia.
        + rewrite He in Ht.
          change (2 ^ 53)%N with 9007199254740992%N in *.
          set (S := (10 ^ Z.to_N (- Json.exp10 x))%N) in *.
          set (P := (2 ^ 1075)%N) in *.
          assert (1 < P)%N by (apply N.ltb_lt; reflexivity).
          assert (S * 1 < m * S * P)%N; [|lia].
          apply N.le_lt_trans with (m * S * 1)%N; [nia|].
          apply N.mul_lt_mono_pos_l; [nia|lia]. }
    intros [_ Hn']%andb_true_iff [_ He]%andb_true_iff.
    destruct (nearest_widths n ltac:(lia) Hn) as (Hd & Hu & _); cbv zeta in Hd, Hu.
    destruct (nearest_spec x n Hn') as [[_ Hhi] _]; cbv zeta in Hhi.
    unfold Json.exactly in He.
    change (2 ^ 53)%N with 9007199254740992%N in *.
    change (2 ^ 54)%N with 18014398509481984%N in *.
    set (up := (2 ^ (N.log2 n + 1))%N) in *.
    set (S := (10 ^ Z.to_N (- Json.exp10 x))%N) in *.
    destruct (Z.leb_spec 0 (Json.exp10 x)) as [Hexp|Hexp].
    + apply N.eqb_eq in He. rewrite He in Hhi.
      assert (HS : S = 1%N).
      { unfold S. replace (Z.to_N (- Json.exp10 x)) with 0%N by lia. reflexivity. }
      rewrite HS in Hhi. lia.
    + apply N.eqb_eq in He. rewrite He in Hhi.
      replace (Z.to_N (Json.exp10 x)) with 0%N in Hhi by lia.
      rewrite N.pow_0_r, N.mul_1_r in Hhi.
      assert ((m * 18014398509481984) * S ≤ (n * 18014398509481984 + up) * S)%N by lia.
      apply N.mul_le_mono_pos_r in H; lia.
  - (* [m] is a positive index below [2^53] *)
    assert (Hn : (n < 2 ^ 53)%N) by lia.
    destruct (N.leb_spec (2 ^ 53) n) as [?|_]; [lia|].
    destruct (N.eqb_spec m 0) as [?|_]; [lia|].
    intros Hn' [_ Hm']%andb_true_iff.
    destruct (nearest_widths m ltac:(lia) Hm) as (Hdm & Hum & Hkm);
      cbv zeta in Hdm, Hum, Hkm.
    destruct (nearest_spec x m Hm') as [[Hlo _] Htie]; cbv zeta in Hlo, Htie.
    change (2 ^ 52)%N with 4503599627370496%N in *.
    change (2 ^ 53)%N with 9007199254740992%N in *.
    change (2 ^ 54)%N with 18014398509481984%N in *.
    set (S := (10 ^ Z.to_N (- Json.exp10 x))%N) in *.
    set (upm := (2 ^ (N.log2 m + 1))%N) in *.
    set (downm := (if (m =? _)%N then _ else _)%N) in *.
    set (V := (Json.mant x * 10 ^ Z.to_N (Json.exp10 x) * 18014398509481984)%N) in *.
    destruct (N.eqb_spec n 0) as [H0|H0].
    { assert (HloS : (9007199254740992 * S ≤ V)%N).
      { apply N.le_trans with ((m * 18014398509481984 - downm) * S)%N; [|exact Hlo].
        apply N.mul_le_mono_r. lia. }
      unfold Json.tiny in Hn'.
      apply orb_true_iff in Hn' as [Ht%N.eqb_eq|[Hexp%Z.ltb_lt Ht%N.leb_le]%andb_true_iff].
      - unfold V in HloS. rewrite Ht in HloS. simpl in HloS. lia.
      - fold S in Ht. unfold V in HloS.
        replace (Z.to_N (Json.exp10 x)) with 0%N in HloS by lia.
        rewrite N.pow_0_r, N.mul_1_r in HloS.
        set (P := (2 ^ 1075)%N) in *.
        assert (4 ≤ P)%N by (apply N.leb_le; reflexivity).
        nia. }
    apply andb_true_iff in Hn' as [_ Hn'].
    destruct (nearest_widths n ltac:(lia) Hn) as (Hdn & Hun & Hkn);
      cbv zeta in Hdn, Hun, Hkn.
    destruct (nearest_spec x n Hn') as [[_ Hhi] Htie']; cbv zeta in Hhi, Htie'.
    change (2 ^ 52)%N with 4503599627370496%N in *.
    change (2 ^ 53)%N with 9007199254740992%N in *.
    change (2 ^ 54)%N with 18014398509481984%N in *.
    fold S V in Hhi, Htie'.
    set (upn := (2 ^ (N.log2 n + 1))%N) in *.
    set (downn := (if (n =? _)%N then _ else _)%N) in *.
    assert (Hle : ((m * 18014398509481984 - downm) * S
                   ≤ (n * 18014398509481984 + upn) * S)%N) by lia.
    apply N.mul_le_mono_pos_r in Hle; [|lia].
    assert (Hm1 : m = (n + 1)%N) by lia.
    assert (Heq : (m * 18014398509481984 - downm = n * 18014398509481984 + upn)%N) by lia.
    rewrite Heq in Hlo, Htie.
    assert (HV : V = ((n * 18014398509481984 + upn) * S)%N) by lia.
    assert (Hkn' : (N.log2 n <? 52)%N = false).
    { destruct (N.log2 n <? 52)%N; [|reflexivity]. specialize (Hkn eq_refl). lia. }
    assert (Hkm' : (N.log2 m <? 52)%N = false).
    { destruct (N.log2 m <? 52)%N; [|reflexivity]. specialize (Hkm eq_refl). lia. }
    rewrite Hkn' in Htie'. rewrite Hkm' in Htie. simpl in Htie, Htie'.
    specialize (Htie (or_introl HV)). specialize (Htie' (or_intror HV)).
    subst m. rewrite N.add_1_r, N.even_succ, <- N.negb_even, Htie' in Htie.
    discriminate.
Qed.

Lemma number_is_functional (x : Json.number) (n m : N) :
  Json.number_is x n = true → Json.number_is x m = true → n = m.
Proof.
  intros Hn Hm. destruct (N.lt_total n m) as [H|[H|H]]; [|exact H|].
  - destruct (number_is_ordered x n m H Hn Hm).
  - destruct (number_is_ordered x m n H Hm Hn).
Qed.

(** Literals that are not written as the index and are equal to it all
    the same, and literals next to them that are not: [1.0] and [-0];
    [1e-400], which rounds to zero; the neighbours of [1], which are
    [1 - 2^-53] and [1 + 2^-52]; a tie above [2^52], which goes to the
    even side. *)
Lemma rounded_literals :
  Json.number_is (Json.mkNumber false 10 (-1)) 1 = true
  ∧ Json.number_is (Json.mkNumber true 0 0) 0 = true
  ∧ Json.number_is (Json.mkNumber false 1 (-400)) 0 = true
  ∧ Json.number_is (Json.mkNumber false 10000000000000001 (-16)) 1 = true
  ∧ Json.number_is (Json.mkNumber false 10000000000000002 (-16)) 1 = false
  ∧ Json.number_is (Json.mkNumber false 99999999999999999999 (-20)) 1 = true
  ∧ Json.number_is (Json.mkNumber false 9999999999999999 (-16)) 1 = false
  ∧ Json.number_is (Json.mkNumber false 45035996273704965 (-1)) 4503599627370496 = true
  ∧ Json.number_is (Json.mkNumber false 45035996273704965 (-1)) 4503599627370497 = false
  ∧ Json.number_is (Json.mkNumber true 1 0) 1 = false.
Proof. by vm_compute. Qed.

End Numbers.

(** ** The ranking endpoint *)

Section Endpoint.

Import AiSearchRoute.

Variable Papa_parse : string → list Row.

(** The handler on a body whose [query] is a truthy string is
    [search]. *)
Lemma handler_query (w : World) members (q : string) tr :
  request_body w = Some (Json.JObj members) →
  Json.get "query" members = Some (Json.JStr q) →
  q ≠ "" →
  handler Papa_parse w tr = search Papa_parse w q tr.
Proof.
  intros Hbody Hget Hq. unfold handler, request_json. rewrite Hbody.
  unfold mbind, M_bind, mret, M_ret; cbn [destructure_query].
  unfold mret, M_ret. rewrite Hget. by destruct q.
Qed.

Lemma handler_request (q : string) key sh g tr :
  q ≠ "" →
  handler Papa_parse (mkWorld (Some (request q)) key sh g) tr
  = search Papa_parse (mkWorld (Some (request q)) key sh g) q tr.
Proof. intros Hq. by apply (handler_query _ [("query", Json.JStr q)]). Qed.

(** The handler on a body whose [query] is absent, [null] or the empty
    string answers 400 and touches nothing. *)
Lemma handler_no_query (w : World) members :
  request_body w = Some (Json.JObj members) →
  Json.get "query" members = None
  ∨ Json.get "query" members = Some Json.JNull
  ∨ Json.get "query" members = Some (Json.JStr "") →
  POST Papa_parse w = (mkResponse 400 (ErrorBody "Query is required" None), []).
Proof.
  intros Hbody Hget. unfold POST, handler, request_json. rewrite Hbody.
  unfold mbind, M_bind, mret, M_ret; cbn [destructure_query].
  unfold mret, M_ret. by destruct Hget as [-> | [-> | ->]].
Qed.

(** A body that is not JSON, the body [null] and a [query] that is
    neither a string nor [null] all end in the [catch], before anything is
    contacted. *)
Lemma handler_bad_body (w : World) :
  request_body w = None
  ∨ request_body w = Some Json.JNull
  ∨ (∃ members v, request_body w = Some (Json.JObj members)
                  ∧ Json.get "query" members = Some v
                  ∧ v ≠ Json.JNull ∧ ∀ q, v ≠ Json.JStr q) →
  ∃ e, POST Papa_parse w
       = (mkResponse 500 (ErrorBody "Internal Server Error" (Some e)), []).
Proof.
  unfold POST, handler, request_json.
  intros [Hbody | [Hbody | (members & v & Hbody & Hget & Hnull & Hstr)]];
    rewrite Hbody; unfold mbind, M_bind, mret, M_ret; cbn [destructure_query].
  - by exists SyntaxError.
  - by exists TypeError.
  - unfold mret, M_ret. rewrite Hget. exists TypeError.
    destruct v as [| | |q| |]; try done. by destruct (Hstr q).
Qed.

(** Without a credential nothing is fetched and the answer is 503. *)
Lemma search_not_configured (w : World) (q : string) tr :
  configured (GEMINI_API_KEY w) = false →
  search Papa_parse w q tr
  = (Return (mkResponse 503 (ErrorBody "API Key missing on server" None)), tr).
Proof. intros Hkey. unfold search, configured in *. by rewrite Hkey. Qed.

(** The sheet cannot be read: one fetch, no call of the model, and an
    exception. *)
Lemma search_source_failure (w : World) (q : string) :
  configured (GEMINI_API_KEY w) = true →
  (∀ csv, sheet w ≠ FetchResponse true csv) →
  ∃ e, search Papa_parse w q [] = (Throw e, [Fetch CSV_URL]).
Proof.
  intros Hkey Hsheet. unfold search, configured in *. rewrite Hkey.
  unfold fetch, mbind, M_bind, perform, mret, M_ret, throw. cbn [negb app].
  destruct (sheet w) as [m|[] text] eqn:Hs; [by eexists| |by eexists].
  by destruct (Hsheet text).
Qed.

Lemma search_reaches_model (w : World) (q csv : string) :
  configured (GEMINI_API_KEY w) = true →
  sheet w = FetchResponse true csv →
  search Papa_parse w q []
  = (after_answer (data (Papa_parse csv)) (gemini w (prompt q (data (Papa_parse csv)))),
     [Fetch CSV_URL; GenerateContent MODEL (prompt q (data (Papa_parse csv)))]).
Proof.
  intros Hkey Hsheet. unfold search, configured in *. rewrite Hkey.
  unfold fetch, generateContent, mbind, M_bind, perform, mret, M_ret, throw.
  rewrite Hsheet. cbn [negb app].
  destruct (gemini w _) as [m|raw]; cbn [after_answer]; [done|].
  destruct (Json.parse (sanitize raw)) as [[]|]; done.
Qed.

Lemma sortedData_nil (ids : list Json.value) : sortedData ids [] = [].
Proof. induction ids as [|v ids IH]; [done|exact IH]. Qed.

Lemma sortedData_length (ids : list Json.value) (d : list FeedbackEntry) :
  length (sortedData ids d) ≤ length ids.
Proof.
  induction ids as [|v ids IH]; simpl; [done|].
  unfold sortedData in *. simpl. destruct (List.find _ d); simpl; lia.
Qed.

(** An integer literal is equal to the index it writes, and to no other. *)
Lemma strict_eq_index_int (z : Z) (n : nat) :
  Json.strict_eq_index (Json.int z) n = true ↔ z = Z.of_nat n.
Proof.
  unfold Json.strict_eq_index, Json.int, Json.number_is.
  destruct (N.leb_spec (2 ^ 53) (N.of_nat n)) as [Hbig|Hsmall].
  { unfold Json.exactly; cbn.
    rewrite N.mul_1_r, andb_true_iff, orb_true_iff, negb_true_iff.
    rewrite Z.ltb_ge, !N.eqb_eq. lia. }
  destruct (N.eqb_spec (N.of_nat n) 0) as [H0|H0].
  { unfold Json.tiny; cbn. rewrite orb_false_r, N.eqb_eq. lia. }
  assert (Hpos : (0 < N.of_nat n)%N) by lia.
  destruct (nearest_bounds _ Hpos Hsmall) as [Hd Hu]; cbv zeta in Hd, Hu.
  unfold Json.nearest; cbn [Json.neg Json.mant Json.exp10].
  change (Z.to_N (- 0)) with 0%N. change (Z.to_N 0) with 0%N.
  rewrite N.pow_0_r, !N.mul_1_r.
  set (down := (if (N.of_nat n =? _)%N then _ else _)%N) in *.
  set (up := (2 ^ (N.log2 (N.of_nat n) + 1))%N) in *.
  change (2 ^ 54)%N with 18014398509481984%N.
  change (2 ^ 53)%N with 9007199254740992%N in *.
  rewrite andb_true_iff, negb_true_iff, Z.ltb_ge.
  destruct (_ || _); rewrite andb_true_iff.
  - rewrite !N.leb_le. lia.
  - rewrite !N.ltb_lt. lia.
Qed.

Lemma find_int (d : list FeedbackEntry) (z : Z) :
  if known d z
  then ∃ e, List.find (id_is (Json.int z)) d = Some e ∧ id e = Some (Z.to_nat z)
  else List.find (id_is (Json.int z)) d = None.
Proof.
  assert (Hid : ∀ e, id_is (Json.int z) e = true ↔ (0 ≤ z)%Z ∧ id e = Some (Z.to_nat z)).
  { intros e. unfold id_is. destruct (id e) as [n|].
    - rewrite strict_eq_index_int. split.
      + intros ->. split; [lia|]. by rewrite Nat2Z.id.
      + intros [Hz [= ->]]. lia.
    - split; [done|]. by intros [_ ?]. }
  destruct (known d z) eqn:Hk; unfold known in Hk.
  - apply andb_true_iff in Hk as [Hz Hin].
    apply bool_decide_eq_true in Hz, Hin.
    apply list_elem_of_fmap in Hin as (e & He & Hin).
    destruct (List.find (id_is (Json.int z)) d) as [e'|] eqn:Hfind.
    + apply find_some in Hfind as [_ His]. apply Hid in His as [_ His]. by exists e'.
    + apply list_elem_of_In in Hin.
      apply (find_none _ _ Hfind) in Hin.
      assert (id_is (Json.int z) e = true) by (by apply Hid). congruence.
  - destruct (List.find (id_is (Json.int z)) d) as [e'|] eqn:Hfind; [|done].
    apply find_some in Hfind as [Hin His]. apply Hid in His as [Hz His].
    apply andb_false_iff in Hk as [Hk|Hk]; apply bool_decide_eq_false in Hk.
    + done.
    + destruct Hk. apply list_elem_of_fmap. exists e'.
      by rewrite <- list_elem_of_In in Hin.
Qed.

Lemma sortedData_int (zs : list Z) (d : list FeedbackEntry) :
  id <$> sortedData (Json.int <$> zs) d
  = (λ z, Some (Z.to_nat z)) <$> List.filter (known d) zs.
Proof.
  unfold sortedData. induction zs as [|z zs IH]; [done|]. cbn.
  pose proof (find_int d z) as Hz. destruct (known d z).
  - destruct Hz as (e & -> & He). cbn. by rewrite He, IH.
  - by rewrite Hz.
Qed.

Lemma find_unique (d : list FeedbackEntry) (e : FeedbackEntry) (n : nat) :
  NoDup (id <$> d) → e ∈ d → id e = Some n →
  List.find (id_is (Json.int (Z.of_nat n))) d = Some e.
Proof.
  intros Hnd Hin Hid. induction d as [|x d IH]; [by apply elem_of_nil in Hin|].
  cbn in Hnd. apply NoDup_cons in Hnd as [Hx Hnd]. cbn [List.find].
  destruct (id_is (Json.int (Z.of_nat n)) x) eqn:Hm.
  - unfold id_is in Hm. destruct (id x) as [m|] eqn:Hidx; [|done].
    apply strict_eq_index_int in Hm. apply Nat2Z.inj in Hm. subst m.
    apply elem_of_cons in Hin as [->|Hin]; [done|].
    destruct Hx. rewrite <- Hid. by apply list_elem_of_fmap_2.
  - apply elem_of_cons in Hin as [->|Hin]; [|by apply IH].
    unfold id_is in Hm. rewrite Hid in Hm.
    assert (Json.strict_eq_index (Json.int (Z.of_nat n)) n = true)
      by (by apply strict_eq_index_int).
    congruence.
Qed.

Lemma elem_of_sortedData (ids : list Json.value) (d : list FeedbackEntry) e :
  e ∈ sortedData ids d → e ∈ d ∧ ∃ v, v ∈ ids ∧ id_is v e = true.
Proof.
  unfold sortedData. rewrite list_elem_of_omap. intros (v & Hv & Hfind).
  apply find_some in Hfind as [Hin His]. rewrite <- list_elem_of_In in Hin.
  split; [done|]. by exists v.
Qed.

(** An element of the answer is equal to the id of at most one entry. *)
Lemma id_is_one_entry (v : Json.value) (d : list FeedbackEntry) e e' :
  NoDup (id <$> d) → e ∈ d → e' ∈ d →
  id_is v e = true → id_is v e' = true → e = e'.
Proof.
  intros Hnd He He' Hv Hv'. unfold id_is in Hv, Hv'.
  destruct (id e) as [n|] eqn:Hn; [|done].
  destruct (id e') as [n'|] eqn:Hn'; [|done].
  destruct v as [| |x| | |]; try done. cbn in Hv, Hv'.
  pose proof (number_is_functional x _ _ Hv Hv') as Heq.
  apply Nat2N.inj in Heq. subst n'.
  apply list_elem_of_lookup in He as [i Hi], He' as [j Hj].
  assert (i = j) as ->; [|congruence].
  apply (NoDup_lookup (id <$> d) i j (Some n)); [done| |];
    rewrite list_lookup_fmap; [by rewrite Hi; cbn; f_equal|by rewrite Hj; cbn; f_equal].
Qed.

(** So what [find] returns for it is all there is to find. *)
Lemma filter_id_is (v : Json.value) (d : list FeedbackEntry) :
  NoDup (id <$> d) →
  List.filter (id_is v) d = option_list (List.find (id_is v) d).
Proof.
  intros Hnd.
  assert (Hone : ∀ e e', e ∈ d → e' ∈ d →
            id_is v e = true → id_is v e' = true → e = e')
    by (intros e e'; by apply id_is_one_entry).
  assert (Hd : NoDup d) by (by apply NoDup_fmap_1 in Hnd).
  clear Hnd. induction d as [|a d IH]; [done|].
  apply NoDup_cons in Hd as [Ha Hd]. cbn [List.filter List.find].
  destruct (id_is v a) eqn:Hva.
  - cbn [option_list]. f_equal.
    destruct (List.filter (id_is v) d) as [|e l] eqn:Hf; [done|].
    assert (Hin : In e (List.filter (id_is v) d)) by (rewrite Hf; by left).
    apply filter_In in Hin as [Hin Hve]. rewrite <- list_elem_of_In in Hin.
    destruct Ha. rewrite (Hone a e); [done|by left|by right|done|done].
  - apply IH; [|done]. intros e e' He He'. apply Hone; by right.
Qed.

Lemma sortedData_flat_map (ids : list Json.value) (d : list FeedbackEntry) :
  NoDup (id <$> d) →
  sortedData ids d = flat_map (λ v, List.filter (id_is v) d) ids.
Proof.
  intros Hnd. unfold sortedData. induction ids as [|v ids IH]; [done|].
  cbn [flat_map]. rewrite filter_id_is by done. cbn.
  destruct (List.find (id_is v) d); cbn; by rewrite IH.
Qed.

Lemma POST_reaches_model (q : string) key csv g :
  q ≠ "" → configured key = true →
  POST Papa_parse (mkWorld (Some (request q)) key (FetchResponse true csv) g)
  = catch (after_answer (data (Papa_parse csv)) (g (prompt q (data (Papa_parse csv)))),
           [Fetch CSV_URL; GenerateContent MODEL (prompt q (data (Papa_parse csv)))]).
Proof.
  intros Hq Hkey. unfold POST. rewrite handler_request by done.
  by rewrite (search_reaches_model _ q csv).
Qed.

End Endpoint.

(** C2, as stated, fails: on an empty corpus the route still sends a
    prompt to the ranking service (one call, not none), and what it
    returns depends on the answer: [[]] on an answer that is an array, the
    500 response on one that is not JSON. *)
Lemma C2_empty_corpus_still_calls_service :
  let run := POST (λ _, []) (ready "anything" "" (λ _, GenerateText "[]")) in
  let run' := POST (λ _, []) (ready "anything" "" (λ _, GenerateText "Sure!")) in
  data [] = []
  ∧ run.1 = mkResponse 200 (Entries [])
  ∧ service_calls run.2 = 1
  ∧ service_calls run.2 ≠ 0
  ∧ status run'.1 = 500.
Proof. vm_compute. repeat split; discriminate. Qed.

(** C2, as the code has it. On an empty corpus the route calls the ranking
    service exactly once, with the prompt that lists no problem; it answers
    with the empty sequence whenever the service's text cleans and parses
    to an array, and with the 500 response otherwise: when the service
    fails, when its text is not JSON, and when it is JSON but no array. *)
Theorem C2_empty_corpus_one_service_call
    (Papa_parse : string → list Row) (q : string) (key : option string)
    (csv : string) (g : string → generated) :
  q ≠ "" → configured key = true → data (Papa_parse csv) = [] →
  let run := POST Papa_parse (mkWorld (Some (request q)) key (FetchResponse true csv) g) in
  let failed e := mkResponse 500 (ErrorBody "Internal Server Error" (Some e)) in
  run.2 = [Fetch CSV_URL; GenerateContent MODEL (prompt q [])]
  ∧ service_calls run.2 = 1
  ∧ (∀ raw ids, g (prompt q []) = GenerateText raw →
       Json.parse (sanitize raw) = Some (Json.JArr ids) →
       run.1 = mkResponse 200 (Entries []))
  ∧ (∀ message, g (prompt q []) = GenerateThrows message →
       run.1 = failed (Failure message))
  ∧ (∀ raw, g (prompt q []) = GenerateText raw →
       Json.parse (sanitize raw) = None →
       run.1 = failed (Error "Failed to parse AI response"))
  ∧ (∀ raw v, g (prompt q []) = GenerateText raw →
       Json.parse (sanitize raw) = Some v →
       (∀ ids, v ≠ Json.JArr ids) →
       run.1 = failed TypeError)
  ∧ (status run.1 = 200
     ↔ ∃ raw ids, g (prompt q []) = GenerateText raw
                  ∧ Json.parse (sanitize raw) = Some (Json.JArr ids))
  ∧ (status run.1 = 200 ∨ status run.1 = 500).
Proof.
  intros Hq Hkey Hdata run failed. subst run failed.
  rewrite POST_reaches_model by done. rewrite Hdata. cbn [fst snd catch].
  split; [|split; [|split; [|split; [|split; [|split; [|split]]]]]].
  - by destruct (after_answer [] _).
  - by destruct (after_answer [] _).
  - intros raw ids -> Hparse. cbn [after_answer]. rewrite Hparse.
    by rewrite sortedData_nil.
  - by intros message ->.
  - intros raw -> Hparse. cbn [after_answer]. by rewrite Hparse.
  - intros raw v -> Hparse Hv. cbn [after_answer]. rewrite Hparse.
    destruct v; try done. by destruct (Hv items).
  - destruct (g _) as [message|raw]; cbn [after_answer status].
    + split; [done|]. by intros (? & ? & ? & _).
    + destruct (Json.parse (sanitize raw)) as [[]|] eqn:Hparse; cbn [status];
        (split; [try done|]);
        try (intros (raw' & items' & Hraw & Hitems); congruence).
      * intros _. exists raw, items. by rewrite Hparse.
      * done.
  - destruct (g _) as [m|raw]; cbn [after_answer]; [by right|].
    destruct (Json.parse (sanitize raw)) as [[]|]; cbn; auto.
Qed.

(** The same at the request of the example: no row at all, an answer of
    the empty array. *)
Lemma C2_empty_corpus_one_service_call_witness :
  let run := POST (λ _, []) (ready "anything" "" (λ _, GenerateText "[]")) in
  run.2 = [Fetch CSV_URL; GenerateContent MODEL (prompt "anything" [])]
  ∧ service_calls run.2 = 1
  ∧ run.1 = mkResponse 200 (Entries []).
Proof.
  destruct (C2_empty_corpus_one_service_call (λ _, []) "anything" (Some "key") ""
              (λ _, GenerateText "[]")) as (Htr & Hcalls & Harr & _);
    [discriminate | reflexivity | reflexivity |].
  split; [exact Htr|]. split; [exact Hcalls|].
  apply (Harr "[]" []); [reflexivity | by vm_compute].
Defined.

(** C3, as stated, fails: nothing caps the result at five entries or
    removes repeats.  An answer of six zeros is an array of integers, and
    the route returns the entry of row 0 six times. *)
Lemma C3_six_repeats_returned :
  let run := POST (λ _, [good_row]) (ready "draft" "csv" (λ _, GenerateText "[0,0,0,0,0,0]")) in
  Json.parse (sanitize "[0,0,0,0,0,0]") = Some (Json.JArr (Json.int <$> [0; 0; 0; 0; 0; 0]%Z))
  ∧ ∃ out, run.1 = mkResponse 200 (Entries out)
           ∧ length out = 6
           ∧ ¬ length out ≤ 5
           ∧ ¬ NoDup out.
Proof.
  split; [by vm_compute|].
  exists (replicate 6 (mkEntry (Some 0) "기타" "p" "s" "")).
  split; [by vm_compute|]. split; [done|]. split; [simpl; lia|].
  intros Hnd. apply NoDup_cons in Hnd as [Hnotin _]. apply Hnotin. by left.
Qed.

(** C3, as the code has it. When the service's text cleans and parses to a
    JSON array, the route answers 200 with the sequence that has, for each
    element of the array in turn, the corpus entry whose id that element
    is equal to, when there is one; there is never more than one.  So the
    entries are drawn from the corpus, in the order of the array and with
    its repetitions; the sequence is no longer than the array, and for an
    array of integers its ids are the integers that name an entry. *)
Theorem C3_ranked_entries_follow_response
    (Papa_parse : string → list Row) (q : string) (key : option string)
    (csv : string) (g : string → generated) (raw : string) (ids : list Json.value) :
  q ≠ "" → configured key = true →
  g (prompt q (data (Papa_parse csv))) = GenerateText raw →
  Json.parse (sanitize raw) = Some (Json.JArr ids) →
  let corpus := data (Papa_parse csv) in
  let run := POST Papa_parse (mkWorld (Some (request q)) key (FetchResponse true csv) g) in
  ∃ out, run.1 = mkResponse 200 (Entries out)
         ∧ out = flat_map (λ v, List.filter (id_is v) corpus) ids
         ∧ (∀ v, length (List.filter (id_is v) corpus) ≤ 1)
         ∧ Forall (λ e, e ∈ corpus ∧ ∃ v, v ∈ ids ∧ id_is v e = true) out
         ∧ length out ≤ length ids
         ∧ (∀ zs, ids = Json.int <$> zs →
              id <$> out = (λ z, Some (Z.to_nat z)) <$> List.filter (known corpus) zs).
Proof.
  intros Hq Hkey Hg Hparse corpus run. subst run.
  rewrite POST_reaches_model by done. rewrite Hg.
  cbn [after_answer]. rewrite Hparse. cbn [catch fst]. fold corpus.
  assert (Hnd : NoDup (id <$> corpus)) by apply data_ids_NoDup.
  exists (sortedData ids corpus). split; [done|].
  split; [|split; [|split; [|split]]].
  - by apply sortedData_flat_map.
  - intros v. rewrite filter_id_is by done.
    destruct (List.find (id_is v) corpus); simpl; lia.
  - apply Forall_forall. intros e He. by apply elem_of_sortedData.
  - apply sortedData_length.
  - intros zs ->. apply sortedData_int.
Qed.

(** An answer that names row 1 as [1.0] and again as [1], row 0 as [-0] and
    as [1e-400], and, with [7] and [null], no row at all. *)
Lemma C3_ranked_entries_follow_response_witness :
  let run := POST (λ _, [good_row; good_row])
               (ready "draft" "csv" (λ _, GenerateText "[1.0, 7, -0, null, 1e-400, 1]")) in
  ∃ out, run.1 = mkResponse 200 (Entries out)
         ∧ id <$> out = [Some 1; Some 0; Some 0; Some 1].
Proof.
  destruct (C3_ranked_entries_follow_response (λ _, [good_row; good_row]) "draft"
              (Some "key") "csv" (λ _, GenerateText "[1.0, 7, -0, null, 1e-400, 1]")
              "[1.0, 7, -0, null, 1e-400, 1]"
              [Json.JNum (Json.mkNumber false 10 (-1)); Json.int 7;
               Json.JNum (Json.mkNumber true 0 0); Json.JNull;
               Json.JNum (Json.mkNumber false 1 (-400)); Json.int 1])
    as (out & Hrun & Hout & _);
    [discriminate | reflexivity | reflexivity | by vm_compute |].
  exists out. split; [exact Hrun|]. rewrite Hout. by vm_compute.
Defined.




Section BlankQuery.

Variable Papa_parse : string → list Row.

Lemma after_answer_status d answer tr :
  status (catch (after_answer d answer, tr)).1 = 200
  ∨ status (catch (after_answer d answer, tr)).1 = 500.
Proof.
  destruct answer as [m|raw]; cbn [after_answer]; [by right|].
  destruct (Json.parse (sanitize raw)) as [[]|]; cbn; auto.
Qed.

Lemma POST_source_failure (q : string) key sh g :
  q ≠ "" → configured key = true → (∀ csv, sh ≠ FetchResponse true csv) →
  ∃ e, POST Papa_parse (mkWorld (Some (request q)) key sh g)
       = (mkResponse 500 (ErrorBody "Internal Server Error" (Some e)), [Fetch CSV_URL]).
Proof.
  intros Hq Hkey Hsh. unfold POST. rewrite handler_request by done.
  destruct (search_source_failure Papa_parse
              (mkWorld (Some (request q)) key sh g) q Hkey Hsh) as [e ->].
  by exists e.
Qed.

Lemma POST_not_configured (q : string) key sh g :
  q ≠ "" → configured key = false →
  POST Papa_parse (mkWorld (Some (request q)) key sh g)
  = (mkResponse 503 (ErrorBody "API Key missing on server" None), []).
Proof.
  intros Hq Hkey. unfold POST. rewrite handler_request by done.
  by rewrite search_not_configured.
Qed.

Lemma POST_request_status (q : string) key sh g :
  q ≠ "" →
  status (POST Papa_parse (mkWorld (Some (request q)) key sh g)).1 ≠ 400.
Proof.
  intros Hq. destruct (configured key) eqn:Hkey.
  - destruct sh as [m|[] csv].
    + by destruct (POST_source_failure q key (FetchRejects m) g) as [e ->].
    + rewrite POST_reaches_model by done.
      by destruct (after_answer_status (data (Papa_parse csv))
                     (g (prompt q (data (Papa_parse csv))))
                     [Fetch CSV_URL;
                      GenerateContent MODEL (prompt q (data (Papa_parse csv)))])
        as [-> | ->].
    + by destruct (POST_source_failure q key (FetchResponse false csv) g) as [e ->].
  - by rewrite POST_not_configured.
Qed.

Lemma POST_request_fetches (q : string) key sh g :
  q ≠ "" → configured key = true →
  Fetch CSV_URL ∈ (POST Papa_parse (mkWorld (Some (request q)) key sh g)).2.
Proof.
  intros Hq Hkey. destruct sh as [m|[] csv].
  - destruct (POST_source_failure q key (FetchRejects m) g) as [e ->]; try done.
    by left.
  - rewrite POST_reaches_model by done.
    destruct (after_answer _ _); by left.
  - destruct (POST_source_failure q key (FetchResponse false csv) g) as [e ->];
      try done.
    by left.
Qed.

End BlankQuery.

Lemma handleAiSearch_blank (s : Page.State) :
  JsString.trim (Page.searchQuery s) = "" → Page.handleAiSearch s = s.
Proof. intros Hq. unfold Page.handleAiSearch. by rewrite Hq. Qed.

(** C10. A query that is not empty but is all white space is not answered
    with 400 by the endpoint: the test there is the truthiness of the
    untrimmed string.  With the credential set the corpus is fetched, and
    once it is served the ranking service is called, with the blank query
    in the prompt.  The page, which trims before it tests, sends no request
    for such a query, from the Enter key or from the button. *)
Theorem C10_blank_query_passes_endpoint_check
    (Papa_parse : string → list Row) (q : string) (key : option string)
    (sh : fetched) (g : string → generated) :
  q ≠ "" → JsString.trim q = "" →
  let run := POST Papa_parse (mkWorld (Some (request q)) key sh g) in
  status run.1 ≠ 400
  ∧ (configured key = true → Fetch CSV_URL ∈ run.2)
  ∧ (configured key = true → ∀ csv, sh = FetchResponse true csv →
       run.2 = [Fetch CSV_URL; GenerateContent MODEL (prompt q (data (Papa_parse csv)))]
       ∧ service_calls run.2 = 1)
  ∧ (∀ s, Page.searchQuery s = q →
       Page.handleAiSearch s = s
       ∧ Page.step s (Page.KeyDown "Enter") = s
       ∧ Page.step s Page.ClickAiSearch = s).
Proof.
  intros Hq Hblank run. subst run. split; [|split; [|split]].
  - by apply POST_request_status.
  - intros Hkey. by apply POST_request_fetches.
  - intros Hkey csv ->. rewrite POST_reaches_model by done.
    by destruct (after_answer _ _).
  - intros s Hs. rewrite <- Hs in Hblank.
    pose proof (handleAiSearch_blank s Hblank) as Hh.
    split; [done|]. unfold Page.step. cbn [String.eqb Ascii.eqb Bool.eqb].
    rewrite Hh. split; [by destruct (Page.loading s)|].
    by destruct (Page.loading s), (Page.isAiSearching s).
Qed.

(** The query of one space. *)
Lemma C10_blank_query_passes_endpoint_check_witness :
  let run := POST (λ _, [good_row]) (ready " " "csv" (λ _, GenerateText "[0]")) in
  status run.1 ≠ 400
  ∧ (configured (Some "key") = true → Fetch CSV_URL ∈ run.2)
  ∧ (configured (Some "key") = true → ∀ csv, FetchResponse true "csv" = FetchResponse true csv →
       run.2 = [Fetch CSV_URL; GenerateContent MODEL (prompt " " (data [good_row]))]
       ∧ service_calls run.2 = 1)
  ∧ (∀ s, Page.searchQuery s = " " →
       Page.handleAiSearch s = s
       ∧ Page.step s (Page.KeyDown "Enter") = s
       ∧ Page.step s Page.ClickAiSearch = s).
Proof.
  apply (C10_blank_query_passes_endpoint_check (λ _, [good_row]) " " (Some "key")
           (FetchResponse true "csv") (λ _, GenerateText "[0]"));
    [discriminate | reflexivity].
Defined.

(** ** The page *)

Section PageProperties.

Import Page.

Lemma click_is_gated (s : State) :
  isAiSearching s = true → step s ClickAiSearch = s.
Proof. intros Hs. unfold step. rewrite Hs. by destruct (loading s). Qed.

Lemma enter_is_not_gated (s : State) :
  loading s = false → JsString.trim (searchQuery s) ≠ "" →
  in_flight (step s (KeyDown "Enter")) = in_flight s ++ [searchQuery s].
Proof.
  intros Hl Hq. unfold step. rewrite Hl. cbn [String.eqb Ascii.eqb Bool.eqb].
  unfold handleAiSearch. apply truthy_nonempty in Hq. by rewrite Hq.
Qed.

End PageProperties.

(** C1. Whenever a ranking result is held, the empty one included, the
    display list is that result, whatever the corpus, the category facet
    and the search text are. *)
Theorem C1_held_result_is_display_list
    (toLowerCase : string → string) (s : Page.State) (results : list FeedbackEntry) :
  Page.aiAnalysisResults s = Some results →
  Page.filteredData toLowerCase s = results.
Proof. intros Hheld. unfold Page.filteredData. by rewrite Hheld. Qed.

(** The example: the facet is Programming, the held result is empty, and
    the list shown is empty although the plain filter would show the
    entry. *)
Lemma C1_held_result_is_display_list_witness :
  Page.selectedCategory holding_empty = "Programming"
  ∧ Page.filteredData (λ x, x) holding_empty = []
  ∧ Page.filteredData (λ x, x) (Page.setAiAnalysisResults None holding_empty)
    = [programming_entry].
Proof.
  split; [reflexivity|]. split; [|reflexivity].
  apply (C1_held_result_is_display_list (λ x, x) holding_empty []). reflexivity.
Defined.

(** C7 fails on the code for the Enter key.  With a request in flight and
    the loading flag set, a click on the search button does nothing, but
    Enter in the search input runs [handleAiSearch] all the same and a
    second request is sent; the state is reached from the initial one by
    typing a draft, clicking the button and pressing Enter. *)
Example C7_enter_key_starts_second_request :
  let s := Page.mkState [] false "draft" "All" None true ["draft"] [] in
  Page.run Page.initial [Page.Loaded (Some []); Page.Change "draft"; Page.ClickAiSearch] = s
  ∧ Page.isAiSearching s = true
  ∧ Page.step s Page.ClickAiSearch = s
  ∧ Page.in_flight (Page.step s (Page.KeyDown "Enter")) = ["draft"; "draft"].
Proof. by vm_compute. Qed.

(** ** Facts about the string primitives *)

Section StringFacts.

Import JsString.

Lemma append_cons (a : ascii) (s t : string) : String a s +:+ t = String a (s +:+ t).
Proof. reflexivity. Qed.

Lemma append_nil_l (t : string) : "" +:+ t = t.
Proof. reflexivity. Qed.

Lemma append_nil_r (s : string) : s +:+ "" = s.
Proof. induction s as [|a s IH]; [done|]. by rewrite append_cons, IH. Qed.

Lemma append_assoc (a b c : string) : (a +:+ b) +:+ c = a +:+ b +:+ c.
Proof. induction a as [|x a IH]; [done|]. by rewrite !append_cons, IH. Qed.

Lemma length_append (a b : string) :
  String.length (a +:+ b) = String.length a + String.length b.
Proof. induction a as [|x a IH]; [done|]. rewrite append_cons. simpl. by rewrite IH. Qed.

Lemma string_length_ind (P : string → Prop) :
  (∀ s, (∀ t, String.length t < String.length s → P t) → P s) → ∀ s, P s.
Proof.
  intros H s. remember (String.length s) as n eqn:Hn. revert s Hn.
  induction n as [n IH] using lt_wf_ind. intros s ->.
  apply H. intros t Ht. by apply (IH (String.length t)).
Qed.

Lemma rev_app_append (s t : string) : String.rev_app s t = String.rev s +:+ t.
Proof.
  unfold String.rev. revert t. induction s as [|a s IH]; intros t; simpl; [done|].
  rewrite (IH (String a t)), (IH (String a "")). by rewrite append_assoc, append_cons.
Qed.

Lemma rev_cons (a : ascii) (s : string) :
  String.rev (String a s) = String.rev s +:+ String a "".
Proof. unfold String.rev at 1. simpl. apply rev_app_append. Qed.

Lemma rev_append (s t : string) :
  String.rev (s +:+ t) = String.rev t +:+ String.rev s.
Proof.
  induction s as [|a s IH].
  - change (String.rev "") with "". by rewrite append_nil_r.
  - by rewrite append_cons, !rev_cons, IH, append_assoc.
Qed.

Lemma rev_involutive (s : string) : String.rev (String.rev s) = s.
Proof.
  induction s as [|a s IH]; [done|]. by rewrite rev_cons, rev_append, IH.
Qed.

(** *** Occurrences *)

Lemma factor_of_trans (a b c : string) : factor_of a b → factor_of b c → factor_of a c.
Proof.
  intros (u & v & ->) (u' & v' & ->). exists (u' +:+ u), (v +:+ v').
  by rewrite !append_assoc.
Qed.

Lemma suffix_factor (u t : string) : factor_of t (u +:+ t).
Proof. exists u, "". by rewrite append_nil_r. Qed.

Lemma prefix_factor (t v : string) : factor_of t (t +:+ v).
Proof. by exists "", v. Qed.

Lemma startsWith_spec (p s : string) : startsWith p s = true ↔ ∃ v, s = p +:+ v.
Proof.
  revert s. induction p as [|a p IH]; intros s; cbn [startsWith].
  - split; [by exists s|done].
  - destruct s as [|b s]; [split; [done|by intros [v ?]]|].
    destruct (Ascii.eqb_spec a b) as [->|Hab].
    + rewrite IH. split; intros [v Hv]; exists v; rewrite append_cons in *; congruence.
    + split; [done|]. intros [v Hv]. rewrite append_cons in Hv. congruence.
Qed.

Lemma includes_spec (p s : string) : includes p s = true ↔ factor_of p s.
Proof.
  induction s as [|a s IH]; cbn [includes]; rewrite orb_true_iff, startsWith_spec.
  - split.
    + intros [[v Hv]|?]; [|done]. by exists "", v.
    + intros (u & v & Huv). left. destruct u; [by exists v|done].
  - rewrite IH. split.
    + intros [[v Hv]|(u & v & ->)]; [by exists "", v|].
      by exists (String a u), v.
    + intros ([|b u] & v & Huv); [left; by exists v|].
      right. exists u, v. rewrite append_cons in Huv. congruence.
Qed.

Lemma includes_factor (p t s : string) :
  factor_of t s → includes p s = false → includes p t = false.
Proof.
  intros Hts Hs. destruct (includes p t) eqn:Ht; [|done].
  apply includes_spec in Ht. rewrite <- Hs. symmetry. apply includes_spec.
  by eapply factor_of_trans.
Qed.

Lemma slice_suffix (n : nat) (s : string) : ∃ u, s = u +:+ slice n s.
Proof.
  revert s. induction n as [|n IH]; intros s; [by exists ""|].
  destruct s as [|a s]; [by exists ""|]. destruct (IH s) as [u Hu].
  exists (String a u). cbn [slice]. by rewrite append_cons, <- Hu.
Qed.

(** *** Trimming *)

Lemma trimStart_unfold (s : string) :
  trimStart s = match head_ws s with Some r => trimStart r | None => s end.
Proof.
  destruct s as [|a [|b [|c s]]]; cbn [trimStart head_ws]; try done.
  - by destruct (ws1 a).
  - destruct (ws1 a); [done|]. by destruct (ws2 a b).
  - destruct (ws1 a); [done|]. destruct (ws2 a b); [done|]. by destruct (ws3 a b c).
Qed.

Lemma trimStart_rev_unfold (s : string) :
  trimStart_rev s = match head_ws_rev s with Some r => trimStart_rev r | None => s end.
Proof.
  destruct s as [|a [|b [|c s]]]; cbn [trimStart_rev head_ws_rev]; try done.
  - by destruct (ws1 a).
  - destruct (ws1 a); [done|]. by destruct (ws2 b a).
  - destruct (ws1 a); [done|]. destruct (ws2 b a); [done|]. by destruct (ws3 c b a).
Qed.

Lemma head_ws_split (s r : string) :
  head_ws s = Some r → ∃ u, s = u +:+ r ∧ 0 < String.length u.
Proof.
  destruct s as [|a [|b [|c s]]]; cbn [head_ws]; try done.
  - destruct (ws1 a); [|done]. intros [= <-]. exists (String a ""). simpl. split; [done|lia].
  - destruct (ws1 a); [intros [= <-]; exists (String a ""); simpl; split; [done|lia]|].
    destruct (ws2 a b); [|done].
    intros [= <-]. exists (String a (String b "")). simpl. split; [done|lia].
  - destruct (ws1 a); [intros [= <-]; exists (String a ""); simpl; split; [done|lia]|].
    destruct (ws2 a b);
      [intros [= <-]; exists (String a (String b "")); simpl; split; [done|lia]|].
    destruct (ws3 a b c); [|done].
    intros [= <-]. exists (String a (String b (String c ""))). simpl. split; [done|lia].
Qed.

Lemma head_ws_rev_split (s r : string) :
  head_ws_rev s = Some r → ∃ u, s = u +:+ r ∧ 0 < String.length u.
Proof.
  destruct s as [|a [|b [|c s]]]; cbn [head_ws_rev]; try done.
  - destruct (ws1 a); [|done]. intros [= <-]. exists (String a ""). simpl. split; [done|lia].
  - destruct (ws1 a); [intros [= <-]; exists (String a ""); simpl; split; [done|lia]|].
    destruct (ws2 b a); [|done].
    intros [= <-]. exists (String a (String b "")). simpl. split; [done|lia].
  - destruct (ws1 a); [intros [= <-]; exists (String a ""); simpl; split; [done|lia]|].
    destruct (ws2 b a);
      [intros [= <-]; exists (String a (String b "")); simpl; split; [done|lia]|].
    destruct (ws3 c b a); [|done].
    intros [= <-]. exists (String a (String b (String c ""))). simpl. split; [done|lia].
Qed.

(** What [trimStart] returns is a tail of its argument that does not start
    with white space. *)
Lemma trimStart_spec (s : string) :
  (∃ u, s = u +:+ trimStart s) ∧ head_ws (trimStart s) = None.
Proof.
  induction s as [s IH] using string_length_ind.
  rewrite trimStart_unfold. destruct (head_ws s) as [r|] eqn:Hr.
  - apply head_ws_split in Hr as (u & -> & Hu).
    destruct (IH r) as [[u' Hu'] Hnone]; [rewrite length_append; lia|].
    split; [|done]. exists (u +:+ u'). by rewrite append_assoc, <- Hu'.
  - split; [by exists ""|done].
Qed.

Lemma trimStart_rev_spec (s : string) :
  (∃ u, s = u +:+ trimStart_rev s) ∧ head_ws_rev (trimStart_rev s) = None.
Proof.
  induction s as [s IH] using string_length_ind.
  rewrite trimStart_rev_unfold. destruct (head_ws_rev s) as [r|] eqn:Hr.
  - apply head_ws_rev_split in Hr as (u & -> & Hu).
    destruct (IH r) as [[u' Hu'] Hnone]; [rewrite length_append; lia|].
    split; [|done]. exists (u +:+ u'). by rewrite append_assoc, <- Hu'.
  - split; [by exists ""|done].
Qed.

Lemma trimEnd_prefix (s : string) : ∃ v, s = trimEnd s +:+ v.
Proof.
  unfold trimEnd. destruct (trimStart_rev_spec (String.rev s)) as [[u Hu] _].
  exists (String.rev u). rewrite <- rev_append, <- Hu. by rewrite rev_involutive.
Qed.

Lemma trim_factor (s : string) : factor_of (trim s) s.
Proof.
  unfold trim. destruct (trimStart_spec s) as [[u Hu] _].
  destruct (trimEnd_prefix (trimStart s)) as [v Hv].
  exists u, v. by rewrite <- Hv.
Qed.

(** A string that starts with white space still does after more bytes are
    appended. *)
Lemma head_ws_append (x w : string) :
  head_ws (x +:+ w) = None → head_ws x = None.
Proof.
  destruct x as [|a [|b [|c x]]]; rewrite ?append_cons, ?append_nil_l;
    cbn [head_ws]; try done.
  - by destruct (ws1 a).
  - destruct (ws1 a); [done|]. by destruct (ws2 a b).
  - destruct (ws1 a); [done|]. destruct (ws2 a b); [done|].
    by destruct (ws3 a b c).
Qed.

Lemma trim_trimmed (s : string) : trimmed (trim s).
Proof.
  unfold trimmed, trim. split.
  - destruct (trimEnd_prefix (trimStart s)) as [v Hv].
    apply (head_ws_append _ v). rewrite <- Hv. apply trimStart_spec.
  - unfold trimEnd. rewrite rev_involutive. apply trimStart_rev_spec.
Qed.

Lemma trimmed_fixed (s : string) : trimmed s → trim s = s.
Proof.
  intros [Hl Hr]. unfold trim, trimEnd.
  rewrite (trimStart_unfold s), Hl, trimStart_rev_unfold, Hr.
  apply rev_involutive.
Qed.

End StringFacts.

(** ** Cleaning the answer of the ranking service *)

Section Sanitize.

Import JsString.

Lemma startsWith_cons (a b : ascii) (p s : string) :
  startsWith (String a p) (String b s) = Ascii.eqb a b && startsWith p s.
Proof. cbn [startsWith]. by destruct (Ascii.eqb a b). Qed.

Lemma remove_fence_match (v : string) :
  remove_all "```" ("```" +:+ v) = remove_all "```" v.
Proof. reflexivity. Qed.

Lemma remove_fence_no_match (c : ascii) (s : string) :
  startsWith "```" (String c s) = false →
  remove_all "```" (String c s) = String c (remove_all "```" s).
Proof. intros H. unfold remove_all. cbn [remove_from]. by rewrite H. Qed.

(** Removing the fences never brings two backticks to the front. *)
Lemma remove_fence_two_ticks (s : string) :
  startsWith "``" (remove_all "```" s) = true → startsWith "``" s = true.
Proof.
  destruct s as [|a [|b s]]; [done| |].
  - rewrite remove_fence_no_match
      by (rewrite startsWith_cons; apply andb_false_r).
    change (remove_all "```" "") with "". rewrite startsWith_cons.
    by rewrite andb_false_r.
  - rewrite !(startsWith_cons _ _ _ (String b s)), !(startsWith_cons _ b).
    destruct (Ascii.eqb "`" a) eqn:Ea; destruct (Ascii.eqb "`" b) eqn:Eb;
      cbn [andb]; try done.
    + rewrite remove_fence_no_match
        by (by rewrite !startsWith_cons, Ea, Eb).
      rewrite remove_fence_no_match by (by rewrite startsWith_cons, Eb).
      by rewrite !startsWith_cons, Ea, Eb.
    + rewrite remove_fence_no_match by (by rewrite startsWith_cons, Ea).
      by rewrite startsWith_cons, Ea.
    + rewrite remove_fence_no_match by (by rewrite startsWith_cons, Ea).
      by rewrite startsWith_cons, Ea.
Qed.

(** After [replace(/```/g, '')] no fence is left. *)
Lemma remove_fence_complete (s : string) :
  includes "```" (remove_all "```" s) = false.
Proof.
  induction s as [s IH] using string_length_ind.
  destruct s as [|c s]; [done|].
  destruct (startsWith "```" (String c s)) eqn:E.
  - apply startsWith_spec in E as [v Hv]. rewrite Hv, remove_fence_match.
    apply IH. rewrite Hv, length_append. simpl. lia.
  - rewrite remove_fence_no_match by done. cbn [includes].
    rewrite IH by (simpl; lia). rewrite orb_false_r.
    destruct (startsWith "```" (String c (remove_all "```" s))) eqn:E2; [|done].
    rewrite startsWith_cons in E, E2.
    apply andb_true_iff in E2 as [Ec E2]. rewrite Ec in E.
    apply remove_fence_two_ticks in E2. by rewrite E2 in E.
Qed.

Lemma sanitize_factor (raw : string) :
  factor_of (sanitize raw) (remove_all "```" (remove_all "```json" raw)).
Proof.
  unfold sanitize. set (x := remove_all "```" _).
  destruct (startsWith "json" (trim x)); [|apply trim_factor].
  eapply factor_of_trans; [apply trim_factor|].
  eapply factor_of_trans; [|apply trim_factor].
  destruct (slice_suffix 4 (trim x)) as [u Hu]. rewrite Hu at 2.
  apply suffix_factor.
Qed.

Lemma sanitize_trimmed (raw : string) : trimmed (sanitize raw).
Proof.
  unfold sanitize. destruct (startsWith "json" _); apply trim_trimmed.
Qed.

End Sanitize.

(** C8. The cleaned text contains no fence marker, tagged or bare, and
    has no white space at either end; a word json at the front of the
    fence-free, trimmed text is dropped and the rest trimmed again.  For
    the fenced answer the cleaned text is the bare array, it parses to the
    integers 3, 1, 2, and with entries of ids 1, 2 and 3 in the corpus the
    route returns those entries in the order 3, 1, 2. *)
Theorem C8_sanitize_then_parse
    (raw : string)
    (Papa_parse : string → list Row) (q : string) (key : option string)
    (csv : string) (g : string → generated) (e1 e2 e3 : FeedbackEntry) :
  let cleaned :=
    JsString.trim (JsString.remove_all "```" (JsString.remove_all "```json" raw)) in
  let corpus := data (Papa_parse csv) in
  let run := POST Papa_parse (mkWorld (Some (request q)) key (FetchResponse true csv) g) in
  JsString.includes "```" (sanitize raw) = false
  ∧ JsString.trim (sanitize raw) = sanitize raw
  ∧ (∀ rest, cleaned = "json" +:+ rest → sanitize raw = JsString.trim rest)
  ∧ (JsString.startsWith "json" cleaned = false → sanitize raw = cleaned)
  ∧ sanitize fenced_answer = "[3,1,2]"
  ∧ sanitize ("json" +:+ nl +:+ "[3,1,2]") = "[3,1,2]"
  ∧ Json.parse (sanitize fenced_answer) = Some (Json.JArr (Json.int <$> [3; 1; 2]%Z))
  ∧ (q ≠ "" → configured key = true →
     g (prompt q corpus) = GenerateText fenced_answer →
     e1 ∈ corpus → id e1 = Some 1 →
     e2 ∈ corpus → id e2 = Some 2 →
     e3 ∈ corpus → id e3 = Some 3 →
     run.1 = mkResponse 200 (Entries [e3; e1; e2])).
Proof.
  intros cleaned corpus run.
  split; [|split; [|split; [|split]]].
  { eapply includes_factor; [apply sanitize_factor|apply remove_fence_complete]. }
  { apply trimmed_fixed, sanitize_trimmed. }
  { intros rest Hrest. unfold sanitize. fold cleaned. rewrite Hrest.
    replace (JsString.startsWith "json" ("json" +:+ rest)) with true
      by (symmetry; apply startsWith_spec; by exists rest).
    done. }
  { intros Hno. unfold sanitize. fold cleaned. by rewrite Hno. }
  split; [by vm_compute|]. split; [by vm_compute|].
  split; [by vm_compute|].
  intros Hq Hkey Hg H1 Hid1 H2 Hid2 H3 Hid3. subst run.
  rewrite POST_reaches_model by done. fold corpus. rewrite Hg.
  cbn [after_answer].
  replace (Json.parse (sanitize fenced_answer))
    with (Some (Json.JArr (Json.int <$> [3; 1; 2]%Z))) by (by vm_compute).
  cbn [catch fst]. do 2 f_equal.
  pose proof (data_ids_NoDup (Papa_parse csv)) as Hnd. fold corpus in Hnd.
  assert (F1 : List.find (id_is (Json.int 1)) corpus = Some e1)
    by exact (find_unique corpus e1 1 Hnd H1 Hid1).
  assert (F2 : List.find (id_is (Json.int 2)) corpus = Some e2)
    by exact (find_unique corpus e2 2 Hnd H2 Hid2).
  assert (F3 : List.find (id_is (Json.int 3)) corpus = Some e3)
    by exact (find_unique corpus e3 3 Hnd H3 Hid3).
  unfold sortedData. cbn [fmap list_fmap omap list_omap].
  by rewrite F1, F2, F3.
Qed.

(** The fenced answer over a corpus with ids 1, 2 and 3. *)
Lemma C8_sanitize_then_parse_witness :
  (POST (λ _, four_rows) (ready "draft" "csv" (λ _, GenerateText fenced_answer))).1
  = mkResponse 200
      (Entries [mkEntry (Some 3) "기타" "p3" "" "s";
                mkEntry (Some 1) "기타" "p1" "s" "";
                mkEntry (Some 2) "기타" "p2" "s" ""]).
Proof.
  pose proof (C8_sanitize_then_parse "" (λ _, four_rows) "draft" (Some "key") "csv"
                (λ _, GenerateText fenced_answer)
                (mkEntry (Some 1) "기타" "p1" "s" "")
                (mkEntry (Some 2) "기타" "p2" "s" "")
                (mkEntry (Some 3) "기타" "p3" "" "s")) as H.
  cbv zeta in H. destruct H as (_ & _ & _ & _ & _ & _ & _ & H).
  apply H;
    [discriminate | reflexivity | reflexivity
    | | reflexivity | | reflexivity | | reflexivity];
    apply list_elem_of_In; vm_compute; tauto.
Defined.

(** * Further properties of the code *)

(** ** The two routes on the same sheet *)

(** An entry without its [id] property. *)
Definition without_id (e : FeedbackEntry) : FeedbackEntry :=
  mkEntry None (category e) (problem e) (solution1 e) (solution2 e).

Section Routes.

Lemma keep_without_id (e : FeedbackEntry) : keep (without_id e) = keep e.
Proof. reflexivity. Qed.

Lemma filter_fmap {A B} (f : A → B) (P : B → bool) (Q : A → bool) (l : list A) :
  (∀ x, P (f x) = Q x) → List.filter P (f <$> l) = f <$> List.filter Q l.
Proof.
  intros HPQ. induction l as [|x l IH]; [done|]. cbn [fmap list_fmap List.filter].
  rewrite HPQ. destruct (Q x); cbn; by rewrite <- IH.
Qed.

Lemma without_id_map_index (k : nat) (rows : list Row) :
  without_id <$> map_index entry_of_row k rows = FeedbackRoute.entry_of_row <$> rows.
Proof.
  revert k. induction rows as [|row rows IH]; intros k; [done|].
  cbn [map_index fmap list_fmap]. f_equal. apply IH.
Qed.

(** The ids of a run of rows numbered from [k]: increasing, and within the
    run. *)
Lemma ids_from (k : nat) (rows : list Row) :
  StronglySorted lt (omap id (List.filter keep (map_index entry_of_row k rows)))
  ∧ Forall (λ i, k ≤ i < k + length rows)
      (omap id (List.filter keep (map_index entry_of_row k rows))).
Proof.
  revert k. induction rows as [|row rows IH]; intros k.
  { split; constructor. }
  destruct (IH (S k)) as [Hs Hb]. cbn [map_index List.filter].
  assert (Hb' : Forall (λ i, k < i ∧ k ≤ i < k + length (row :: rows))
                  (omap id (List.filter keep (map_index entry_of_row (S k) rows)))).
  { eapply Forall_impl; [exact Hb|]. intros i Hi. simpl in *. lia. }
  destruct (keep (entry_of_row row k)); cbn [omap list_omap id entry_of_row].
  - split.
    + constructor; [done|]. eapply Forall_impl; [exact Hb'|]. by intros i [? _].
    + constructor; [simpl; lia|]. eapply Forall_impl; [exact Hb'|]. by intros i [_ ?].
  - split; [done|]. eapply Forall_impl; [exact Hb'|]. by intros i [_ ?].
Qed.

Lemma omap_id_data (rows : list Row) :
  Some <$> omap id (data rows) = id <$> data rows.
Proof.
  assert (H : Forall (λ e, is_Some (id e)) (data rows)).
  { apply Forall_forall. intros e He. unfold data in He.
    apply elem_of_filter_keep in He as [He _].
    apply elem_of_map_index in He as (i & row & _ & ->). by eexists. }
  induction H as [|e l [i Hi] Hl IH]; [done|].
  cbn [omap list_omap fmap list_fmap]. rewrite Hi. cbn. by rewrite <- IH.
Qed.

End Routes.

(** X1. On the same rows the two routes build the same entries in the same
    order: the corpus of the ranking route, its ids erased, is the listing. *)
Theorem routes_agree_up_to_id (rows : list Row) :
  without_id <$> AiSearchRoute.data rows = FeedbackRoute.data rows.
Proof.
  unfold data, FeedbackRoute.data.
  rewrite <- (filter_fmap without_id keep keep) by apply keep_without_id.
  by rewrite without_id_map_index.
Qed.

(** X2. The corpus of the ranking route keeps the order of the rows: every
    entry has an id, the ids increase strictly along the corpus, and each
    is below the number of raw rows. *)
Theorem corpus_ids_increase (rows : list Row) :
  id <$> data rows = Some <$> omap id (data rows)
  ∧ StronglySorted lt (omap id (data rows))
  ∧ Forall (λ i, i < length rows) (omap id (data rows)).
Proof.
  split; [by rewrite omap_id_data|]. destruct (ids_from 0 rows) as [Hs Hb].
  split; [exact Hs|]. eapply Forall_impl; [exact Hb|]. intros i Hi. simpl in Hi. lia.
Qed.

(** ** Every run of the ranking endpoint *)

Section EveryRun.

Variable Papa_parse : string → list Row.

(** The five ways a run can go, read off the handler from top to bottom.
    In the last one the query is the string the body carries. *)
Lemma POST_cases_query (w : World) :
  POST Papa_parse w = (mkResponse 400 (ErrorBody "Query is required" None), [])
  ∨ (configured (GEMINI_API_KEY w) = false
     ∧ POST Papa_parse w = (mkResponse 503 (ErrorBody "API Key missing on server" None), []))
  ∨ (∃ e, POST Papa_parse w
          = (mkResponse 500 (ErrorBody "Internal Server Error" (Some e)), []))
  ∨ (configured (GEMINI_API_KEY w) = true
     ∧ (∀ csv, sheet w ≠ FetchResponse true csv)
     ∧ ∃ e, POST Papa_parse w
            = (mkResponse 500 (ErrorBody "Internal Server Error" (Some e)), [Fetch CSV_URL]))
  ∨ (∃ members q csv,
       request_body w = Some (Json.JObj members)
       ∧ Json.get "query" members = Some (Json.JStr q)
       ∧ q ≠ "" ∧ configured (GEMINI_API_KEY w) = true
       ∧ sheet w = FetchResponse true csv
       ∧ POST Papa_parse w
         = catch (after_answer (data (Papa_parse csv))
                    (gemini w (prompt q (data (Papa_parse csv)))),
                  [Fetch CSV_URL;
                   GenerateContent MODEL (prompt q (data (Papa_parse csv)))])).
Proof.
  destruct (request_body w) as [body|] eqn:Hbody.
  2:{ right. right. left. apply handler_bad_body. by left. }
  destruct body as [|b|n|t|items|members];
    try (left; unfold POST, handler, request_json; by rewrite Hbody).
  { right. right. left. apply handler_bad_body. right. by left. }
  destruct (Json.get "query" members) as [v|] eqn:Hget.
  2:{ left. apply (handler_no_query _ _ members); [done|by left]. }
  assert (Hother : (v ≠ Json.JNull ∧ ∀ q, v ≠ Json.JStr q) →
            ∃ e, POST Papa_parse w
                 = (mkResponse 500 (ErrorBody "Internal Server Error" (Some e)), [])).
  { intros [? ?]. apply handler_bad_body. right. right. by exists members, v. }
  destruct v as [|b|n|q|items|members'];
    try (right; right; left; by apply Hother).
  { left. apply (handler_no_query _ _ members); [done|]. right. by left. }
  destruct (decide (q = "")) as [->|Hq].
  { left. apply (handler_no_query _ _ members); [done|]. right. by right. }
  destruct (configured (GEMINI_API_KEY w)) eqn:Hkey.
  2:{ right. left. split; [done|]. unfold POST.
      rewrite (handler_query _ _ members q) by done.
      by rewrite search_not_configured. }
  destruct (sheet w) as [m|[] csv] eqn:Hsheet.
  - right. right. right. left. split; [done|]. split; [done|].
    destruct (search_source_failure Papa_parse w q Hkey) as [e He];
      [by rewrite Hsheet|].
    exists e. unfold POST. by rewrite (handler_query _ _ members q), He.
  - right. right. right. right. exists members, q, csv.
    split; [done|]. split; [done|]. split; [done|]. split; [done|].
    split; [done|]. unfold POST. rewrite (handler_query _ _ members q) by done.
    by rewrite (search_reaches_model _ _ q csv).
  - right. right. right. left. split; [done|]. split; [done|].
    destruct (search_source_failure Papa_parse w q Hkey) as [e He];
      [by rewrite Hsheet|].
    exists e. unfold POST. by rewrite (handler_query _ _ members q), He.
Qed.

Lemma POST_cases (w : World) :
  POST Papa_parse w = (mkResponse 400 (ErrorBody "Query is required" None), [])
  ∨ (configured (GEMINI_API_KEY w) = false
     ∧ POST Papa_parse w = (mkResponse 503 (ErrorBody "API Key missing on server" None), []))
  ∨ (∃ e, POST Papa_parse w
          = (mkResponse 500 (ErrorBody "Internal Server Error" (Some e)), []))
  ∨ (configured (GEMINI_API_KEY w) = true
     ∧ (∀ csv, sheet w ≠ FetchResponse true csv)
     ∧ ∃ e, POST Papa_parse w
            = (mkResponse 500 (ErrorBody "Internal Server Error" (Some e)), [Fetch CSV_URL]))
  ∨ (∃ q csv,
       q ≠ "" ∧ configured (GEMINI_API_KEY w) = true
       ∧ sheet w = FetchResponse true csv
       ∧ POST Papa_parse w
         = catch (after_answer (data (Papa_parse csv))
                    (gemini w (prompt q (data (Papa_parse csv)))),
                  [Fetch CSV_URL;
                   GenerateContent MODEL (prompt q (data (Papa_parse csv)))])).
Proof.
  destruct (POST_cases_query w)
    as [H | [H | [H | [H | (members & q & csv & _ & _ & Hq & Hkey & Hsheet & H)]]]];
    auto 6.
  right. right. right. right. by exists q, csv.
Qed.

Lemma after_answer_cases (d : list FeedbackEntry) (answer : generated) tr :
  (∃ e, catch (after_answer d answer, tr)
        = (mkResponse 500 (ErrorBody "Internal Server Error" (Some e)), tr))
  ∨ (∃ items, catch (after_answer d answer, tr) = (mkResponse 200 (Entries items), tr)).
Proof.
  destruct answer as [m|raw]; cbn [after_answer]; [left; by eexists|].
  destruct (Json.parse (sanitize raw)) as [[]|];
    try (left; by eexists). right. by eexists.
Qed.

End EveryRun.

(** X3. The two routes treat a sheet response that is not [ok]
    differently: the listing route parses its text and lists what it finds,
    the ranking route stops after the fetch with the 500 response and never
    calls the ranking service. *)
Theorem not_ok_sheet_listed_but_not_ranked
    (Papa_parse : string → list Row) (q : string) (key : option string)
    (text : string) (g : string → generated) :
  q ≠ "" → configured key = true →
  FeedbackRoute.GET Papa_parse (FetchResponse false text)
  = FeedbackRoute.Listed (FeedbackRoute.data (Papa_parse text))
  ∧ POST Papa_parse (mkWorld (Some (request q)) key (FetchResponse false text) g)
    = (mkResponse 500
         (ErrorBody "Internal Server Error" (Some (Error "Failed to fetch data source"))),
       [Fetch CSV_URL]).
Proof.
  intros Hq Hkey. split; [done|]. unfold POST. rewrite handler_request by done.
  unfold search, configured in *. cbn [GEMINI_API_KEY sheet]. by rewrite Hkey.
Qed.

(** A sheet that answers 404 with a page of text that parses to one row. *)
Lemma not_ok_sheet_listed_but_not_ranked_witness :
  FeedbackRoute.GET (λ _, [good_row]) (FetchResponse false "Not Found")
  = FeedbackRoute.Listed [mkEntry None "기타" "p" "s" ""]
  ∧ service_calls
      (POST (λ _, [good_row])
         (mkWorld (Some (request "draft")) (Some "key") (FetchResponse false "Not Found")
            (λ _, GenerateText "[0]"))).2 = 0.
Proof.
  destruct (not_ok_sheet_listed_but_not_ranked (λ _, [good_row]) "draft" (Some "key")
              "Not Found" (λ _, GenerateText "[0]")) as [Hget Hpost];
    [discriminate | reflexivity |].
  split; [exact Hget|]. by rewrite Hpost.
Defined.

(** X4. Whatever the request and the world, one run of the ranking route
    contacts the outside in a fixed order and without retry: nothing at
    all, or the sheet only, or the sheet and then the ranking service once.
    The service is called only when the body of the request is an object
    whose query is a non-empty string, the credential is set and the sheet
    is served, and the prompt it is sent is the one made of that query and
    of the corpus of that sheet; without the credential nothing is
    contacted. *)
Theorem POST_contacts_in_order (Papa_parse : string → list Row) (w : World) :
  let tr := (POST Papa_parse w).2 in
  service_calls tr ≤ 1
  ∧ (tr = []
     ∨ tr = [Fetch CSV_URL]
     ∨ ∃ members q csv,
         request_body w = Some (Json.JObj members)
         ∧ Json.get "query" members = Some (Json.JStr q)
         ∧ q ≠ ""
         ∧ configured (GEMINI_API_KEY w) = true
         ∧ sheet w = FetchResponse true csv
         ∧ tr = [Fetch CSV_URL;
                 GenerateContent MODEL (prompt q (data (Papa_parse csv)))])
  ∧ (configured (GEMINI_API_KEY w) = false → tr = []).
Proof.
  intros tr. subst tr.
  destruct (POST_cases_query Papa_parse w)
    as [-> | [[Hkey ->] | [[e ->] | [(Hkey & Hsheet & e & ->)
        | (members & q & csv & Hbody & Hget & Hq & Hkey & Hsheet & ->)]]]];
    cbn [snd].
  - split; [unfold service_calls; simpl; lia|]. split; [by left|done].
  - split; [unfold service_calls; simpl; lia|]. split; [by left|done].
  - split; [unfold service_calls; simpl; lia|]. split; [by left|done].
  - split; [unfold service_calls; simpl; lia|]. split; [right; by left|congruence].
  - destruct (after_answer _ _); cbn [catch snd];
      (split; [unfold service_calls; simpl; lia|]); (split; [|congruence]);
      right; right; by exists members, q, csv.
Qed.

(** X5. The response of the ranking route has one of four statuses, 200,
    400, 503 or 500; it carries entries exactly when the status is 200, and
    then both the sheet and the ranking service were contacted. *)
Theorem POST_status_and_payload (Papa_parse : string → list Row) (w : World) :
  let run := POST Papa_parse w in
  (status run.1 = 200 ∨ status run.1 = 400 ∨ status run.1 = 503 ∨ status run.1 = 500)
  ∧ (status run.1 = 200 ↔ ∃ items, payload run.1 = Entries items)
  ∧ (status run.1 = 200 → service_calls run.2 = 1 ∧ length run.2 = 2).
Proof.
  intros run. subst run.
  destruct (POST_cases Papa_parse w)
    as [-> | [[Hkey ->] | [[e ->] | [(Hkey & Hsheet & e & ->) | (q & csv & Hq & Hkey & Hsheet & ->)]]]];
    cbn [fst snd status payload].
  - split; [auto|]. split; [|done]. split; [done|]. by intros [? ?].
  - split; [auto|]. split; [|done]. split; [done|]. by intros [? ?].
  - split; [auto|]. split; [|done]. split; [done|]. by intros [? ?].
  - split; [auto|]. split; [|done]. split; [done|]. by intros [? ?].
  - destruct (after_answer_cases (data (Papa_parse csv))
                (gemini w (prompt q (data (Papa_parse csv))))
                [Fetch CSV_URL; GenerateContent MODEL (prompt q (data (Papa_parse csv)))])
      as [[e ->] | [items ->]]; cbn [fst snd status payload].
    + split; [auto|]. split; [|done]. split; [done|]. by intros [? ?].
    + split; [auto|]. split; [|done]. split; [by exists items|done].
Qed.

(** ** What reaches the ranking service, and what comes back *)

(** What the prompt shows of an entry. *)
Definition shown (e : FeedbackEntry) : option nat * string := (id e, problem e).

Section PromptAndAnswer.

Lemma problemsList_shown (d : list FeedbackEntry) :
  problemsList d
  = String.concat nl
      ((λ p : option nat * string, "ID: " +:+ show_id p.1 +:+ ", Problem: " +:+ p.2)
         <$> (shown <$> d)).
Proof.
  unfold problemsList. f_equal. induction d as [|e d IH]; [done|].
  cbn [List.map fmap list_fmap]. f_equal. exact IH.
Qed.

Lemma sortedData_no_number (ids : list Json.value) (d : list FeedbackEntry) :
  Forall (λ v, ∀ n, v ≠ Json.JNum n) ids → sortedData ids d = [].
Proof.
  unfold sortedData. induction 1 as [|v ids Hv Hids IH]; [done|].
  cbn [omap list_omap].
  assert (Hnone : List.find (id_is v) d = None).
  { destruct (List.find (id_is v) d) as [e|] eqn:Hfind; [|done].
    apply find_some in Hfind as [_ His]. unfold id_is in His.
    destruct (id e); [|done]. destruct v; try done. by destruct (Hv n0). }
  by rewrite Hnone.
Qed.

Lemma remove_all_absent (p s : string) :
  JsString.includes p s = false → JsString.remove_all p s = s.
Proof.
  unfold JsString.remove_all. induction s as [|c s IH]; [done|].
  cbn [JsString.includes JsString.remove_from]. intros H.
  apply orb_false_iff in H as [Hstart Hrest]. rewrite Hstart. f_equal. by apply IH.
Qed.

Lemma tagged_fence_absent (s : string) :
  JsString.includes "```" s = false → JsString.includes "```json" s = false.
Proof.
  intros H. destruct (JsString.includes "```json" s) eqn:Ht; [|done].
  rewrite <- H. symmetry. apply includes_spec.
  apply includes_spec in Ht. eapply factor_of_trans; [|exact Ht].
  apply (prefix_factor "```" "json").
Qed.

(** On a text without fence the two replacements do nothing. *)
Lemma sanitize_without_fence (raw : string) :
  JsString.includes "```" raw = false →
  sanitize raw
  = if JsString.startsWith "json" (JsString.trim raw)
    then JsString.trim (JsString.slice 4 (JsString.trim raw))
    else JsString.trim raw.
Proof.
  intros H. unfold sanitize.
  by rewrite (remove_all_absent "```json"), (remove_all_absent "```")
    by auto using tagged_fence_absent.
Qed.

End PromptAndAnswer.

(** X6. The prompt shows of the corpus only the id and the problem of each
    entry: two corpora that agree on these give the same prompt, so no
    solution text and no category is sent to the ranking service. *)
Theorem prompt_withholds_solutions (query : string) (d d' : list FeedbackEntry) :
  shown <$> d = shown <$> d' → prompt query d = prompt query d'.
Proof.
  intros H. unfold prompt. by rewrite !problemsList_shown, H.
Qed.

(** The same entry with other solutions and another category. *)
Lemma prompt_withholds_solutions_witness :
  prompt "draft" [mkEntry (Some 0) "A" "p" "s1" "s2"]
  = prompt "draft" [mkEntry (Some 0) "B" "p" "other" ""].
Proof.
  apply (prompt_withholds_solutions "draft" [mkEntry (Some 0) "A" "p" "s1" "s2"]
           [mkEntry (Some 0) "B" "p" "other" ""]).
  reflexivity.
Defined.

(** An answer whose elements are an id written as a string, [null], a
    nested array and [true]. *)
Definition unusable_answer : string :=
  "[" +:+ dq +:+ "0" +:+ dq +:+ ", null, [0], true]".

(** X7. Ids are compared with [===]: when the answer parses to an array
    none of whose elements is a number (ids written as strings, [null],
    nested arrays), the route answers 200 with no entry, not an error. *)
Theorem non_numeric_ids_match_nothing
    (Papa_parse : string → list Row) (q : string) (key : option string)
    (csv : string) (g : string → generated) (raw : string) (ids : list Json.value) :
  q ≠ "" → configured key = true →
  g (prompt q (data (Papa_parse csv))) = GenerateText raw →
  Json.parse (sanitize raw) = Some (Json.JArr ids) →
  Forall (λ v, ∀ n, v ≠ Json.JNum n) ids →
  (POST Papa_parse (mkWorld (Some (request q)) key (FetchResponse true csv) g)).1
  = mkResponse 200 (Entries []).
Proof.
  intros Hq Hkey Hg Hparse Hids. rewrite POST_reaches_model by done.
  rewrite Hg. cbn [after_answer]. rewrite Hparse. cbn [catch fst].
  by rewrite sortedData_no_number.
Qed.

Lemma non_numeric_ids_match_nothing_witness :
  (POST (λ _, [good_row]) (ready "draft" "csv" (λ _, GenerateText unusable_answer))).1
  = mkResponse 200 (Entries []).
Proof.
  apply (non_numeric_ids_match_nothing (λ _, [good_row]) "draft" (Some "key") "csv"
           (λ _, GenerateText unusable_answer) unusable_answer
           [Json.JStr "0"; Json.JNull; Json.JArr [Json.int 0]; Json.JBool true]);
    [discriminate | reflexivity | reflexivity | by vm_compute |].
  repeat constructor; discriminate.
Defined.

(** X8. A text that contains no fence marker is only trimmed, and
    relieved of one leading word json: the two replacements leave it as it
    is. *)
Theorem sanitize_leaves_plain_text (raw : string) :
  JsString.includes "```" raw = false →
  sanitize raw
  = if JsString.startsWith "json" (JsString.trim raw)
    then JsString.trim (JsString.slice 4 (JsString.trim raw))
    else JsString.trim raw.
Proof. apply sanitize_without_fence. Qed.

(** Prose around the array stays, so the text is not JSON. *)
Lemma sanitize_leaves_plain_text_witness :
  sanitize "  Sure! [1,2,3] " = "Sure! [1,2,3]"
  ∧ Json.parse (sanitize "  Sure! [1,2,3] ") = None.
Proof.
  rewrite (sanitize_leaves_plain_text "  Sure! [1,2,3] "); [|reflexivity].
  split; reflexivity.
Defined.

(** X9. Cleaning is stable: a cleaned text that does not itself begin
    with the word json is left as it is by a second cleaning. *)
Theorem sanitize_stable (raw : string) :
  JsString.startsWith "json" (sanitize raw) = false →
  sanitize (sanitize raw) = sanitize raw.
Proof.
  intros Hjson.
  rewrite (sanitize_without_fence (sanitize raw)).
  - rewrite (trimmed_fixed _ (sanitize_trimmed raw)). by rewrite Hjson.
  - eapply includes_factor; [apply sanitize_factor|apply remove_fence_complete].
Qed.

Lemma sanitize_stable_witness :
  sanitize (sanitize fenced_answer) = sanitize fenced_answer.
Proof. apply (sanitize_stable fenced_answer). reflexivity. Defined.

(** ** States the page can reach *)

(** The states reached from the initial one by some sequence of events. *)
Definition reachable (s : Page.State) : Prop := ∃ es, s = Page.run Page.initial es.

(** The query is not blank. *)
Definition not_blank (q : string) : Prop := JsString.trim q ≠ "".

(** What every reachable state satisfies. *)
Definition page_invariant (s : Page.State) : Prop :=
  (Page.loading s = true → s = Page.initial)
  ∧ (Page.isAiSearching s = true →
     Page.in_flight s ≠ [] ∧ Page.aiAnalysisResults s = None)
  ∧ Forall not_blank (Page.in_flight s).

Section Reachable.

Import Page.

Lemma run_snoc (s : State) (es : list Event) (e : Event) :
  run s (es ++ [e]) = step (run s es) e.
Proof. unfold run. by rewrite foldl_app. Qed.

(** A state whose [loading] flag is down after an update of other fields. *)
Ltac loaded Hl := let H := fresh in intros H; cbn in H; congruence.

Lemma handleAiSearch_invariant (s : State) :
  loading s = false → page_invariant s → page_invariant (handleAiSearch s).
Proof.
  intros Hl (HA & HB & HD). unfold handleAiSearch.
  destruct (JsString.truthy (JsString.trim (searchQuery s))) eqn:Hq; cbn [negb];
    [|done].
  split; [|split]; cbn.
  - loaded Hl.
  - intros _. split; [|done]. by destruct (in_flight s).
  - apply Forall_app. split; [done|]. constructor; [|done].
    by apply truthy_nonempty.
Qed.

Lemma step_invariant (s : State) (e : Event) :
  page_invariant s → page_invariant (step s e).
Proof.
  intros Hinv. pose proof Hinv as (HA & HB & HD).
  destruct e as [jsonData|c|value|key| | |i r]; cbn [step].
  - split; [done|]. split; [exact HB|exact HD].
  - destruct (loading s) eqn:Hl; [done|].
    destruct (bool_decide (c ∈ categories s)); [|done].
    split; [loaded Hl|]. split; [|exact HD].
    cbn. intros Hb. split; [|done]. by apply HB.
  - destruct (loading s) eqn:Hl; [done|].
    destruct (String.eqb value ""); cbn.
    + split; [loaded Hl|]. split; [|exact HD].
      intros Hb. split; [|done]. by apply HB.
    + split; [loaded Hl|]. split; [exact HB|exact HD].
  - destruct (loading s) eqn:Hl; [done|].
    destruct (String.eqb key "Enter"); [|done]. by apply handleAiSearch_invariant.
  - destruct (loading s) eqn:Hl; [done|].
    destruct (isAiSearching s); [done|]. by apply handleAiSearch_invariant.
  - destruct (loading s) eqn:Hl; [done|].
    destruct (truthy_results (aiAnalysisResults s)); [|done].
    split; [loaded Hl|]. split; [|exact HD].
    cbn. intros Hb. split; [|done]. by apply HB.
  - destruct (in_flight s !! i) as [q|] eqn:Hi; [|done].
    assert (Hl : loading s = false).
    { destruct (loading s); [|done]. rewrite HA in Hi by done. done. }
    split; [|split].
    + destruct r as [results|st|]; cbn; try loaded Hl;
        destruct (st =? 503); cbn; loaded Hl.
    + destruct r as [results|st|]; cbn; try done; by destruct (st =? 503).
    + assert (HD' : Forall not_blank (delete i (in_flight s)))
        by (by apply Forall_delete).
      destruct r as [results|st|]; cbn; try done; by destruct (st =? 503).
Qed.

Lemma reachable_invariant (s : State) : reachable s → page_invariant s.
Proof.
  intros [es ->]. induction es as [|e es IH] using rev_ind.
  - split; [done|]. split; [done|]. constructor.
  - rewrite run_snoc. by apply step_invariant.
Qed.

End Reachable.

(** The state after the listing arrived, a draft was typed and Enter was
    pressed twice: two requests in flight. *)
Definition two_in_flight : Page.State :=
  Page.run Page.initial
    [Page.Loaded (Some []); Page.Change "draft"; Page.KeyDown "Enter"; Page.KeyDown "Enter"].

(** X10. In every state the page can reach, a set loading flag means that
    a request is in flight and that no ranking result is held: the spinner
    never shows over a stale result. *)
Theorem searching_means_request_and_no_result (s : Page.State) :
  reachable s → Page.isAiSearching s = true →
  Page.in_flight s ≠ [] ∧ Page.aiAnalysisResults s = None.
Proof. intros Hs Hb. by apply (reachable_invariant s Hs). Qed.

Lemma searching_means_request_and_no_result_witness :
  Page.in_flight two_in_flight ≠ [] ∧ Page.aiAnalysisResults two_in_flight = None.
Proof.
  apply (searching_means_request_and_no_result two_in_flight); [|reflexivity].
  by eexists.
Defined.

(** X11. Until the listing request has ended nothing else can happen: a
    reachable state that is still loading is the initial state, whatever
    was clicked or typed meanwhile. *)
Theorem nothing_happens_while_loading (s : Page.State) :
  reachable s → Page.loading s = true → s = Page.initial.
Proof. intros Hs Hl. by apply (reachable_invariant s Hs). Qed.

Lemma nothing_happens_while_loading_witness :
  Page.run Page.initial
    [Page.Change "draft"; Page.KeyDown "Enter"; Page.ClickCategory "All"; Page.ClickAiSearch]
  = Page.initial.
Proof.
  apply (nothing_happens_while_loading
           (Page.run Page.initial
              [Page.Change "draft"; Page.KeyDown "Enter"; Page.ClickCategory "All";
               Page.ClickAiSearch])); [by eexists|reflexivity].
Defined.

(** X12. The page never sends a blank query: every request in flight in a
    reachable state carries a query that is not empty after trimming, so
    the endpoint never answers one of the page's requests with 400. *)
Theorem page_requests_are_never_rejected
    (s : Page.State) (q : string) (Papa_parse : string → list Row)
    (key : option string) (sh : fetched) (g : string → generated) :
  reachable s → q ∈ Page.in_flight s →
  not_blank q
  ∧ status (POST Papa_parse (mkWorld (Some (request q)) key sh g)).1 ≠ 400.
Proof.
  intros Hs Hq. destruct (reachable_invariant s Hs) as (_ & _ & HD).
  rewrite Forall_forall in HD. pose proof (HD q Hq) as Hnb.
  split; [done|]. apply POST_request_status. by intros ->.
Qed.

Lemma page_requests_are_never_rejected_witness :
  not_blank "draft"
  ∧ status (POST (λ _, []) (mkWorld (Some (request "draft")) None (FetchRejects "")
                              (λ _, GenerateThrows ""))).1 ≠ 400.
Proof.
  apply (page_requests_are_never_rejected two_in_flight "draft" (λ _, []) None
           (FetchRejects "") (λ _, GenerateThrows "")); [by eexists|].
  apply list_elem_of_In. vm_compute. tauto.
Defined.

(** ** A search from the click to the answer *)

(** How the page reads the response of the endpoint: [res.ok] is a status
    from 200 to 299, and then the body is taken for the results.  [None]
    stands for a body that is no array under such a status, which the
    [useState] type of the results excludes. *)
Definition reply_of (res : Response) : option Page.Reply :=
  if (200 <=? status res) && (status res <=? 299)
  then match payload res with
       | Entries items => Some (Page.Ok items)
       | ErrorBody _ _ => None
       end
  else Some (Page.NotOk (status res)).

(** The alert of a failed search. *)
Definition alert_of (st : nat) : Page.Alert :=
  if st =? 503 then Page.KeyNotConfigured else Page.SearchFailed.

(** The page is idle with a query typed: loaded, no search under way. *)
Definition idle (s : Page.State) : Prop :=
  Page.loading s = false ∧ Page.isAiSearching s = false
  ∧ Page.in_flight s = [] ∧ not_blank (Page.searchQuery s).

(** A loaded page with a draft typed and the category B selected. *)
Definition idle_page : Page.State :=
  Page.mkState [mkEntry None "A" "p" "s" ""; mkEntry None "B" "q" "s" ""]
    false "draft" "B" None false [] [].

Section SearchRoundTrip.

Import Page.

(** The state after the click and the first event of the flight. *)
Lemma click_starts_search (s : State) :
  idle s →
  step s ClickAiSearch
  = mkState (data s) false (searchQuery s) (selectedCategory s) None true
      [searchQuery s] (alerts s).
Proof.
  intros (Hl & Hb & Hfl & Hq). cbn [step]. rewrite Hl, Hb. unfold handleAiSearch.
  apply truthy_nonempty in Hq. rewrite Hq. cbn [negb].
  unfold set_in_flight, setAiAnalysisResults, setIsAiSearching. cbn.
  by rewrite Hl, Hfl.
Qed.

Lemma click_then_settle (s : State) (r : Reply) :
  idle s →
  run s [ClickAiSearch; Settle 0 r]
  = match r with
    | Ok items =>
        mkState (data s) false (searchQuery s) "All" (Some items) false [] (alerts s)
    | NotOk st =>
        mkState (data s) false (searchQuery s) (selectedCategory s) None false []
          (alerts s ++ [alert_of st])
    | Rejected =>
        mkState (data s) false (searchQuery s) (selectedCategory s) None false []
          (alerts s ++ [SearchFailed])
    end.
Proof.
  intros Hidle. unfold run. cbn [foldl]. rewrite click_starts_search by done.
  cbn [step in_flight lookup list_lookup].
  unfold resume, set_in_flight, setSelectedCategory, setAiAnalysisResults,
    setIsAiSearching, alert, alert_of.
  destruct r as [items|st|]; cbn; try done. by destruct (st =? 503).
Qed.

Lemma reply_of_error (st : nat) (e : string) (d : option exn) :
  st = 400 ∨ st = 500 ∨ st = 503 →
  reply_of (mkResponse st (ErrorBody e d)) = Some (NotOk st).
Proof. by intros [-> | [-> | ->]]. Qed.

End SearchRoundTrip.

(** X13. A search from the click to the answer.  From an idle page, the
    click on the search button followed by the arrival of the endpoint's
    response always ends with the loading flag down and nothing in flight,
    the query and the corpus untouched.  If the response carries entries
    they become the display list and the facet is reset to All; otherwise
    no result is held, the facet stays, and one alert is added: the
    credential alert for 503, the generic one for any other status. *)
Theorem search_round_trip
    (Papa_parse : string → list Row) (key : option string) (sh : fetched)
    (g : string → generated) (toLowerCase : string → string) (s : Page.State) :
  idle s →
  let res := (POST Papa_parse (mkWorld (Some (request (Page.searchQuery s))) key sh g)).1 in
  ∃ r, reply_of res = Some r
       ∧ let s' := Page.run s [Page.ClickAiSearch; Page.Settle 0 r] in
         Page.isAiSearching s' = false ∧ Page.in_flight s' = []
         ∧ Page.searchQuery s' = Page.searchQuery s ∧ Page.data s' = Page.data s
         ∧ match payload res with
           | Entries items =>
               Page.filteredData toLowerCase s' = items
               ∧ Page.selectedCategory s' = "All"
               ∧ Page.alerts s' = Page.alerts s
           | ErrorBody _ _ =>
               Page.aiAnalysisResults s' = None
               ∧ Page.selectedCategory s' = Page.selectedCategory s
               ∧ Page.alerts s' = Page.alerts s ++ [alert_of (status res)]
           end.
Proof.
  intros Hidle res. subst res.
  set (w := mkWorld _ _ _ _).
  assert (Hcases :
    (∃ st e d, (st = 400 ∨ st = 500 ∨ st = 503)
               ∧ (POST Papa_parse w).1 = mkResponse st (ErrorBody e d))
    ∨ ∃ items, (POST Papa_parse w).1 = mkResponse 200 (Entries items)).
  { destruct (POST_cases Papa_parse w)
      as [-> | [[_ ->] | [[e ->] | [(_ & _ & e & ->) | (q & csv & _ & _ & _ & ->)]]]];
      try (left; eexists _, _, _; split; [|reflexivity]; auto).
    destruct (after_answer_cases (data (Papa_parse csv))
                (gemini w (prompt q (data (Papa_parse csv))))
                [Fetch CSV_URL; GenerateContent MODEL (prompt q (data (Papa_parse csv)))])
      as [[e ->] | [items ->]].
    - left. eexists _, _, _. split; [|reflexivity]. auto.
    - right. by exists items. }
  destruct Hcases as [(st & e & d & Hst & ->) | (items & ->)].
  - exists (Page.NotOk st). split; [by apply reply_of_error|].
    cbv zeta. by rewrite click_then_settle.
  - exists (Page.Ok items). split; [done|].
    cbv zeta. by rewrite click_then_settle.
Qed.

(** The credential is missing: the alert for it, and the plain list again. *)
Lemma search_round_trip_witness :
  ∃ r, reply_of
         (POST (λ _, []) (mkWorld (Some (request "draft")) None (FetchRejects "")
                            (λ _, GenerateThrows ""))).1 = Some r
       ∧ Page.alerts (Page.run idle_page [Page.ClickAiSearch; Page.Settle 0 r])
         = [Page.KeyNotConfigured].
Proof.
  destruct (search_round_trip (λ _, []) None (FetchRejects "") (λ _, GenerateThrows "")
              (λ x, x) idle_page) as (r & Hr & _ & _ & _ & _ & H).
  { repeat split. discriminate. }
  exists r. split; [exact Hr|].
  assert (Hnot : r = Page.NotOk 503) by (vm_compute in Hr; congruence).
  by rewrite Hnot.
Defined.

(** X14. An answer that arrives late is committed all the same.  If,
    while the request is in flight, the user picks a category and empties
    the search text (each of which clears the held result), the entries of
    the answer still become the display list, the facet chosen meanwhile is
    replaced by All, and the text stays empty. *)
Theorem late_answer_is_committed
    (toLowerCase : string → string) (s : Page.State) (c : string)
    (items : list FeedbackEntry) :
  idle s → c ∈ Page.categories s →
  let s' := Page.run s [Page.ClickAiSearch; Page.ClickCategory c; Page.Change "";
                        Page.Settle 0 (Page.Ok items)] in
  Page.filteredData toLowerCase s' = items
  ∧ Page.selectedCategory s' = "All"
  ∧ Page.searchQuery s' = ""
  ∧ Page.isAiSearching s' = false.
Proof.
  intros Hidle Hc s'. subst s'. unfold Page.run. cbn [foldl].
  rewrite click_starts_search by done. cbn [Page.step Page.loading].
  replace (bool_decide (c ∈ Page.categories _)) with true
    by (symmetry; by apply bool_decide_eq_true_2).
  done.
Qed.

Lemma late_answer_is_committed_witness :
  let s' := Page.run idle_page
              [Page.ClickAiSearch; Page.ClickCategory "A"; Page.Change "";
               Page.Settle 0 (Page.Ok [programming_entry])] in
  Page.filteredData (λ x, x) s' = [programming_entry]
  ∧ Page.selectedCategory s' = "All"
  ∧ Page.searchQuery s' = ""
  ∧ Page.isAiSearching s' = false.
Proof.
  apply (late_answer_is_committed (λ x, x) idle_page "A" [programming_entry]).
  - repeat split. discriminate.
  - apply list_elem_of_In. vm_compute. tauto.
Defined.

(** ** The plain filter and the category buttons *)

(** What the plain filter asks of an entry, with occurrences in place of
    the boolean tests. *)
Definition plain_match (toLowerCase : string → string) (q c : string)
    (e : FeedbackEntry) : Prop :=
  (c = "All" ∨ category e = c)
  ∧ (factor_of (toLowerCase q) (toLowerCase (problem e))
     ∨ factor_of (toLowerCase q) (toLowerCase (solution1 e))
     ∨ (solution2 e ≠ "" ∧ factor_of (toLowerCase q) (toLowerCase (solution2 e)))
     ∨ factor_of (toLowerCase q) (toLowerCase (category e))).

(** The page's [fetchData] on the response of the listing route: the
    entries on success; on the 500 response the [catch] leaves [data] as
    it is; [loading] goes down in both cases. *)
Definition fetchData (res : FeedbackRoute.Response) : Page.Event :=
  match res with
  | FeedbackRoute.Listed d => Page.Loaded (Some d)
  | FeedbackRoute.Unavailable _ _ => Page.Loaded None
  end.

Section PlainFilter.

Import Page.

Lemma unique_from_spec (seen xs : list string) :
  NoDup (unique_from seen xs)
  ∧ ∀ c, c ∈ unique_from seen xs ↔ c ∈ xs ∧ c ∉ seen.
Proof.
  revert seen. induction xs as [|x xs IH]; intros seen; cbn [unique_from].
  { split; [constructor|]. intros c. rewrite elem_of_nil. tauto. }
  destruct (bool_decide (x ∈ seen)) eqn:Hx.
  - apply bool_decide_eq_true in Hx. destruct (IH seen) as [Hnd Hin].
    split; [done|]. intros c. rewrite Hin, elem_of_cons.
    split; [tauto|]. intros [[-> | ?] ?]; [done|tauto].
  - apply bool_decide_eq_false in Hx. destruct (IH (x :: seen)) as [Hnd Hin].
    split.
    + constructor; [|done]. rewrite Hin, elem_of_cons. tauto.
    + intros c. rewrite !elem_of_cons, Hin, elem_of_cons.
      destruct (decide (c = x)) as [->|Hc]; tauto.
Qed.

Variable toLowerCase : string → string.

Lemma matches_spec (q c : string) (e : FeedbackEntry) :
  matches toLowerCase q c e = true ↔ plain_match toLowerCase q c e.
Proof.
  unfold matches, plain_match.
  rewrite andb_true_iff, !orb_true_iff, andb_true_iff, !includes_spec,
    !String.eqb_eq, truthy_nonempty.
  tauto.
Qed.

Lemma includes_empty (s : string) : JsString.includes "" s = true.
Proof. by destruct s. Qed.

Lemma filteredData_unfiltered (s : State) :
  toLowerCase "" = "" →
  aiAnalysisResults s = None → selectedCategory s = "All" → searchQuery s = "" →
  filteredData toLowerCase s = data s.
Proof.
  intros Hlower Hnone Hcat Hq. unfold filteredData. rewrite Hnone, Hcat, Hq.
  apply filter_fixed, Forall_forall. intros e _.
  unfold matches. rewrite Hlower. by rewrite includes_empty.
Qed.

End PlainFilter.

(** X15. Without a held result the display list is the corpus filtered in
    place: a sublist of the corpus, in its order, made of exactly the
    entries of the selected category (any, for All) in which the
    lower-cased search text occurs in the lower-cased problem, first
    solution, non-empty second solution or category. *)
Theorem plain_filter_selects (toLowerCase : string → string) (s : Page.State) :
  Page.aiAnalysisResults s = None →
  Page.filteredData toLowerCase s `sublist_of` Page.data s
  ∧ ∀ e, e ∈ Page.filteredData toLowerCase s
         ↔ e ∈ Page.data s
           ∧ plain_match toLowerCase (Page.searchQuery s) (Page.selectedCategory s) e.
Proof.
  intros Hnone. unfold Page.filteredData. rewrite Hnone. split.
  - apply filter_sublist.
  - intros e. by rewrite !list_elem_of_In, filter_In, matches_spec.
Qed.

(** With the facet B and no text, only the entry of category B. *)
Lemma plain_filter_selects_witness :
  Page.filteredData (λ x, x) (Page.setSearchQuery "" idle_page)
  `sublist_of` Page.data idle_page
  ∧ mkEntry None "A" "p" "s" "" ∉ Page.filteredData (λ x, x) (Page.setSearchQuery "" idle_page).
Proof.
  destruct (plain_filter_selects (λ x, x) (Page.setSearchQuery "" idle_page) eq_refl)
    as [Hsub Hin].
  split; [exact Hsub|]. rewrite Hin. intros [_ [[Hc | Hc] _]]; discriminate Hc.
Defined.

(** X16. With the facet All, an empty search text and no held result the
    page shows the whole corpus, provided lower-casing the empty string
    gives the empty string. *)
Theorem no_filter_shows_everything (toLowerCase : string → string) (s : Page.State) :
  toLowerCase "" = "" →
  Page.aiAnalysisResults s = None →
  Page.selectedCategory s = "All" →
  Page.searchQuery s = "" →
  Page.filteredData toLowerCase s = Page.data s.
Proof. apply filteredData_unfiltered. Qed.

Lemma no_filter_shows_everything_witness :
  let s := Page.step Page.initial (Page.Loaded (Some [programming_entry])) in
  Page.filteredData (λ x, x) s = [programming_entry].
Proof.
  apply (no_filter_shows_everything (λ x, x)
           (Page.step Page.initial (Page.Loaded (Some [programming_entry]))));
    reflexivity.
Defined.

(** X17. The first render after the listing request ended: the loading
    flag is down and the page shows what the listing route listed, in its
    order; nothing, if the route answered 500. *)
Theorem first_render_shows_listing
    (Papa_parse : string → list Row) (sheet : fetched) (toLowerCase : string → string) :
  toLowerCase "" = "" →
  let s := Page.step Page.initial (fetchData (FeedbackRoute.GET Papa_parse sheet)) in
  Page.loading s = false
  ∧ Page.filteredData toLowerCase s
    = match sheet with
      | FetchRejects _ => []
      | FetchResponse _ text => FeedbackRoute.data (Papa_parse text)
      end.
Proof.
  intros Hlower s. subst s. split; [by destruct sheet|].
  rewrite (filteredData_unfiltered toLowerCase); try done; by destruct sheet.
Qed.

(** A sheet of two rows, one of them without solution. *)
Lemma first_render_shows_listing_witness :
  let s := Page.step Page.initial
             (fetchData (FeedbackRoute.GET (λ _, [blank_row; good_row])
                           (FetchResponse true "csv"))) in
  Page.loading s = false
  ∧ Page.filteredData (λ x, x) s = FeedbackRoute.data [blank_row; good_row].
Proof.
  apply (first_render_shows_listing (λ _, [blank_row; good_row])
           (FetchResponse true "csv") (λ x, x)).
  reflexivity.
Defined.

(** X18. The category buttons: All, then every category of the corpus
    exactly once.  The row of buttons has a repeated label exactly when
    some entry has the category All itself. *)
Theorem categories_listed_once (s : Page.State) :
  ∃ cats, Page.categories s = "All" :: cats
          ∧ NoDup cats
          ∧ (∀ c, c ∈ cats ↔ c ∈ category <$> Page.data s)
          ∧ (NoDup (Page.categories s) ↔ "All" ∉ category <$> Page.data s).
Proof.
  unfold Page.categories.
  destruct (unique_from_spec [] (List.map category (Page.data s))) as [Hnd Hin].
  assert (Hin' : ∀ c, c ∈ Page.unique_from [] (List.map category (Page.data s))
                      ↔ c ∈ category <$> Page.data s).
  { intros c. rewrite Hin, elem_of_nil. tauto. }
  eexists. split; [reflexivity|]. split; [done|]. split; [done|].
  rewrite NoDup_cons, Hin'. tauto.
Qed.

(** ** The cards: expanding, versions, copying *)

Module Cards.

(** The tab of a card: [1 | 2]. *)
Inductive Version := V1 | V2.

(** The card states of the component, [selectedVersions] keyed by the
    position of the card in the display list, and the texts handed to
    [navigator.clipboard.writeText], oldest first. *)
Record State := mkCards {
  expandedIndex : option nat;
  copiedIndex : option nat;
  selectedVersions : gmap nat Version;
  written : list string
}.

(** [useState] initial values. *)
Definition initial : State := mkCards None None ∅ [].

(** Lines 67-70. *)
Definition toggleExpand (index : nat) (s : State) : State :=
  mkCards (if decide (expandedIndex s = Some index) then None else Some index)
    None (selectedVersions s) (written s).

(** Lines 72-76. *)
Definition switchVersion (index : nat) (version : Version) (s : State) : State :=
  mkCards (expandedIndex s) None (<[index := version]> (selectedVersions s)) (written s).

(** Lines 78-81, up to the timer. *)
Definition copyToClipboard (text : string) (index : nat) (s : State) : State :=
  mkCards (expandedIndex s) (Some index) (selectedVersions s) (written s ++ [text]).

(** Line 82, when the timer fires. *)
Definition copy_timer_fires (s : State) : State :=
  mkCards (expandedIndex s) None (selectedVersions s) (written s).

(** The category button also collapses the cards (line 159). *)
Definition category_clicked (s : State) : State :=
  mkCards None (copiedIndex s) (selectedVersions s) (written s).

(** What the card at position [index] showing [item] renders: lines
    238-241.  Both versions are truthy, so [||] only replaces an absent
    choice. *)
Definition currentVersion (s : State) (index : nat) : Version :=
  default V1 (selectedVersions s !! index).

Definition solution (v : Version) (item : FeedbackEntry) : string :=
  match v with
  | V1 => solution1 item
  | V2 => solution2 item
  end.

Definition currentSolution (s : State) (item : FeedbackEntry) (index : nat) : string :=
  solution (currentVersion s index) item.

Definition hasSolution2 (item : FeedbackEntry) : bool :=
  JsString.truthy (solution2 item).

(** The copy button of that card (line 309). *)
Definition click_copy (item : FeedbackEntry) (index : nat) (s : State) : State :=
  copyToClipboard (currentSolution s item index) index s.

End Cards.

(** X19. The copy button hands over the text of the version on display:
    the first solution as long as no tab was chosen for that position, and
    after a choice of version at position [j] the chosen one at [j] and the
    same as before at every other position.  The card is then marked as
    copied and the expansion is untouched. *)
Theorem copy_takes_displayed_version
    (s : Cards.State) (item : FeedbackEntry) (index j : nat) (v : Cards.Version) :
  let s' := Cards.click_copy item index (Cards.switchVersion j v s) in
  Cards.written s'
  = Cards.written s
    ++ [if decide (j = index) then Cards.solution v item
        else Cards.currentSolution s item index]
  ∧ Cards.written (Cards.click_copy item index Cards.initial) = [solution1 item]
  ∧ Cards.copiedIndex s' = Some index
  ∧ Cards.expandedIndex s' = Cards.expandedIndex s.
Proof.
  intros s'. subst s'. split; [|done].
  unfold Cards.click_copy, Cards.copyToClipboard, Cards.currentSolution,
    Cards.currentVersion, Cards.switchVersion.
  cbn [Cards.written Cards.selectedVersions]. do 2 f_equal.
  destruct (decide (j = index)) as [->|Hne].
  - by rewrite lookup_insert_eq.
  - by rewrite lookup_insert_ne.
Qed.

(** X20. A version is chosen for a position, not for an entry, and the
    choice outlives a change of the list: after the second tab was chosen
    at a position, whatever entry is shown there later, also after a click
    on a category, is shown with its second solution; for an entry without
    one this is the empty text, and the tabs to go back are not rendered. *)
Theorem version_choice_is_by_position
    (s : Cards.State) (index : nat) (item : FeedbackEntry) :
  let s' := Cards.category_clicked (Cards.switchVersion index Cards.V2 s) in
  Cards.currentSolution s' item index = solution2 item
  ∧ (solution2 item = "" →
     Cards.currentSolution s' item index = "" ∧ Cards.hasSolution2 item = false).
Proof.
  intros s'. subst s'.
  assert (H : Cards.currentSolution
                (Cards.category_clicked (Cards.switchVersion index Cards.V2 s)) item index
              = solution2 item).
  { unfold Cards.currentSolution, Cards.currentVersion. cbn.
    by rewrite lookup_insert_eq. }
  split; [exact H|]. intros Hempty. rewrite H. split; [done|].
  unfold Cards.hasSolution2. by rewrite Hempty.
Qed.

(** X21. At most one card is expanded, and a click on a card decides by
    the card that was expanded: the clicked card is expanded afterwards
    exactly when it was not before; so two clicks on the same card leave
    every card collapsed unless that card was the expanded one.  Each click
    also removes the copied mark. *)
Theorem toggle_expands_one_card (s : Cards.State) (index : nat) :
  (Cards.expandedIndex (Cards.toggleExpand index s) = Some index
   ↔ Cards.expandedIndex s ≠ Some index)
  ∧ (Cards.expandedIndex s = Some index →
     Cards.expandedIndex (Cards.toggleExpand index s) = None)
  ∧ Cards.expandedIndex (Cards.toggleExpand index (Cards.toggleExpand index s))
    = (if decide (Cards.expandedIndex s = Some index) then Some index else None)
  ∧ Cards.copiedIndex (Cards.toggleExpand index s) = None.
Proof.
  unfold Cards.toggleExpand. cbn [Cards.expandedIndex Cards.copiedIndex].
  destruct (decide (Cards.expandedIndex s = Some index)) as [He|He].
  - rewrite decide_False by done. split; [|done]. split; [done|]. by intros ?.
  - rewrite decide_True by done. split; [|done]. split; done.
Qed.

(** ** An answer in the format the prompt asks for *)

(** The text of a list of ids as the prompt's example writes one: decimal
    numbers between brackets, separated by a comma and a space. *)
Definition id_list_text (ns : list nat) : string :=
  "[" +:+ String.concat ", " (pretty <$> ns) +:+ "]".

(** The same between a language-tagged fence and a closing fence, each on
    a line of its own. *)
Definition fenced (text : string) : string :=
  "```json" +:+ nl +:+ text +:+ nl +:+ "```".

(** No backtick among the bytes of a string. *)
Definition no_tick (s : string) : Prop :=
  Forall (λ c, c ≠ "`"%char) (String.list_ascii_of_string s).

(** The number token of a natural number. *)
Definition nat_number (n : nat) : Json.number := Json.mkNumber false (N.of_nat n) 0.

(** The tokens of the ids after the first: a comma before each. *)
Definition more_ids (ns : list nat) : list Json.token :=
  ns ≫= λ n, [Json.TComma; Json.TNum (nat_number n)].

Section Digits.

Import Json.

Lemma bind_Some {A} (o : option A) : o ≫= (λ x, Some x) = o.
Proof. by destruct o. Qed.

Lemma digit_pretty_char (d : N) : (d < 10)%N → digit (pretty_N_char d) = Some d.
Proof.
  intros Hd.
  assert (d = 0 ∨ d = 1 ∨ d = 2 ∨ d = 3 ∨ d = 4 ∨ d = 5 ∨ d = 6 ∨ d = 7
          ∨ d = 8 ∨ d = 9)%N as Hcases by lia.
  repeat (destruct Hcases as [-> | Hcases]; [reflexivity|]). by subst.
Qed.

Lemma pretty_char_not_tick (d : N) : pretty_N_char d ≠ "`"%char.
Proof. unfold pretty_N_char. by repeat case_match. Qed.

(** The first digit of a number that is not zero. *)
Lemma start_digit (d : N) :
  (0 < d < 10)%N →
  start (pretty_N_char d) = Some ([], MNum NInt (mkAcc false d 0 false 0)).
Proof.
  intros Hd.
  assert (d = 1 ∨ d = 2 ∨ d = 3 ∨ d = 4 ∨ d = 5 ∨ d = 6 ∨ d = 7 ∨ d = 8 ∨ d = 9)%N
    as Hcases by lia.
  repeat (destruct Hcases as [-> | Hcases]; [reflexivity|]). by subst.
Qed.

(** A further digit. *)
Lemma next_digit (m d : N) :
  (d < 10)%N →
  lex_step (MNum NInt (mkAcc false m 0 false 0)) (pretty_N_char d)
  = Some ([], MNum NInt (mkAcc false (m * 10 + d) 0 false 0)).
Proof.
  intros Hd. cbn [lex_step num_step]. by rewrite digit_pretty_char.
Qed.

Lemma lex_from_cons (m : mode) (c : ascii) (s : string) :
  lex_from m (String c s)
  = '(ts, m') ← lex_step m c; rest ← lex_from m' s; Some (ts ++ rest).
Proof. reflexivity. Qed.

(** The digits of a number that is not zero, read between tokens, leave
    the lexer inside that number. *)
Lemma lex_digits (x : N) (s : string) :
  (0 < x)%N →
  lex_from MSkip (pretty_N_go x s)
  = lex_from (MNum NInt (mkAcc false x 0 false 0)) s.
Proof.
  revert s. induction (N.lt_wf_0 x) as [x _ IH]. intros s Hx.
  rewrite pretty_N_go_step by done.
  assert (Hmod : (x `mod` 10 < 10)%N) by (by apply N.mod_lt).
  pose proof (N.div_mod x 10) as Hdiv.
  destruct (decide (x < 10)%N) as [Hsmall|Hbig].
  - rewrite N.div_small, N.mod_small, pretty_N_go_0 by done.
    rewrite lex_from_cons, start_digit by lia. cbn. apply bind_Some.
  - rewrite IH; [|apply N.div_lt; lia|apply N.div_str_pos; lia].
    rewrite lex_from_cons, next_digit by done. cbn.
    replace (x `div` 10 * 10 + x `mod` 10)%N with x by lia.
    apply bind_Some.
Qed.

Lemma pretty_N_go_append (x : N) (s t : string) :
  pretty_N_go x s +:+ t = pretty_N_go x (s +:+ t).
Proof.
  revert s. induction (N.lt_wf_0 x) as [x _ IH]. intros s.
  destruct (decide (0 < x)%N) as [Hx|Hx].
  - rewrite (pretty_N_go_step x s), (pretty_N_go_step x (s +:+ t)) by done.
    by rewrite IH by (apply N.div_lt; lia).
  - replace x with 0%N by lia. by rewrite !pretty_N_go_0.
Qed.

Lemma pretty_N_go_no_tick (x : N) (s : string) :
  no_tick s → no_tick (pretty_N_go x s).
Proof.
  revert s. induction (N.lt_wf_0 x) as [x _ IH]. intros s Hs.
  destruct (decide (0 < x)%N) as [Hx|Hx].
  - rewrite pretty_N_go_step by done. apply IH; [apply N.div_lt; lia|].
    constructor; [apply pretty_char_not_tick|done].
  - replace x with 0%N by lia. by rewrite pretty_N_go_0.
Qed.

(** A number is finished by a closing bracket. *)
Lemma number_then_bracket (st : numst) (a : numacc) :
  st = NZero ∨ st = NInt →
  lex_from (MNum st a) "]" = Some [TNum (finish a); TRBracket].
Proof. by intros [-> | ->]. Qed.

Lemma lex_from_step (m m' : mode) (c : ascii) (ts : list token) (s : string) :
  lex_step m c = Some (ts, m') →
  lex_from m (String c s) = rest ← lex_from m' s; Some (ts ++ rest).
Proof. intros H. by rewrite lex_from_cons, H. Qed.

Lemma step_comma (st : numst) (a : numacc) :
  st = NZero ∨ st = NInt →
  lex_step (MNum st a) "," = Some ([TNum (finish a); TComma], MSkip).
Proof. by intros [-> | ->]. Qed.

Lemma step_space : lex_step MSkip " " = Some ([], MSkip).
Proof. reflexivity. Qed.

(** A number is finished by a comma; the space after it is skipped. *)
Lemma number_then_comma (st : numst) (a : numacc) (s : string) :
  st = NZero ∨ st = NInt →
  lex_from (MNum st a) (", " +:+ s)
  = rest ← lex_from MSkip s; Some (TNum (finish a) :: TComma :: rest).
Proof.
  intros Hst. change (", " +:+ s) with (String "," (String " " s)).
  rewrite (lex_from_step _ _ _ _ _ (step_comma st a Hst)).
  rewrite (lex_from_step _ _ _ _ _ step_space).
  destruct (lex_from MSkip s); reflexivity.
Qed.

(** The decimal text of a natural number, read between tokens, leaves the
    lexer inside a number with that value and nothing emitted. *)
Lemma lex_pretty (n : nat) (s : string) :
  ∃ st a, (st = NZero ∨ st = NInt)
          ∧ finish a = nat_number n
          ∧ lex_from MSkip (pretty n +:+ s) = lex_from (MNum st a) s.
Proof.
  unfold pretty, pretty_nat, pretty, pretty_N.
  destruct (decide (N.of_nat n = 0)%N) as [H0|Hpos].
  - exists NZero, acc0. split; [by left|]. split.
    + unfold nat_number. by rewrite H0.
    + change ("0" +:+ s) with (String "0" s). rewrite lex_from_cons. cbn.
      apply bind_Some.
  - exists NInt, (mkAcc false (N.of_nat n) 0 false 0). split; [by right|].
    split; [done|]. rewrite pretty_N_go_append, append_nil_l.
    apply lex_digits. lia.
Qed.

End Digits.

Section IdList.

Import Json.

Lemma int_of_nat (n : nat) : int (Z.of_nat n) = JNum (nat_number n).
Proof.
  unfold int, nat_number. f_equal. f_equal.
  - apply Z.ltb_ge. lia.
  - lia.
Qed.

Lemma concat_cons2 (sep x y : string) (l : list string) :
  String.concat sep (x :: y :: l) = x +:+ sep +:+ String.concat sep (y :: l).
Proof. reflexivity. Qed.

(** The ids after the opening bracket, up to the closing one. *)
Lemma lex_ids (n : nat) (ns : list nat) :
  lex_from MSkip (String.concat ", " (pretty <$> (n :: ns)) +:+ "]")
  = Some (TNum (nat_number n) :: more_ids ns ++ [TRBracket]).
Proof.
  revert n. induction ns as [|m ns IH]; intros n.
  - change (String.concat ", " (pretty <$> [n])) with (pretty n).
    destruct (lex_pretty n "]") as (st & a & Hst & Ha & ->).
    by rewrite number_then_bracket, Ha.
  - change (pretty <$> n :: m :: ns) with (pretty n :: pretty m :: (pretty <$> ns)).
    rewrite concat_cons2, !append_assoc.
    destruct (lex_pretty n (", " +:+ String.concat ", " (pretty m :: (pretty <$> ns)) +:+ "]"))
      as (st & a & Hst & Ha & ->).
    rewrite number_then_comma by done.
    change (pretty m :: (pretty <$> ns)) with (pretty <$> m :: ns).
    by rewrite IH, Ha.
Qed.

Lemma lex_id_list (ns : list nat) :
  lex (id_list_text ns)
  = Some (TLBracket ::
          match ns with
          | [] => [TRBracket]
          | n :: ns' => TNum (nat_number n) :: more_ids ns' ++ [TRBracket]
          end).
Proof.
  unfold lex, id_list_text.
  change ("[" +:+ String.concat ", " (pretty <$> ns) +:+ "]")
    with (String "[" (String.concat ", " (pretty <$> ns) +:+ "]")).
  rewrite (lex_from_step MSkip MSkip "[" [TLBracket]) by reflexivity.
  destruct ns as [|n ns]; [reflexivity|]. by rewrite lex_ids.
Qed.

Lemma parse_more_ids (acc : list value) (ns : list nat) :
  parse_from ([CArr acc], ESep) (more_ids ns ++ [TRBracket])
  = Some (JArr (List.rev acc ++ ((λ n, JNum (nat_number n)) <$> ns))).
Proof.
  revert acc. induction ns as [|n ns IH]; intros acc.
  - cbn. by rewrite app_nil_r.
  - change (more_ids (n :: ns) ++ [TRBracket])
      with (TComma :: TNum (nat_number n) :: (more_ids ns ++ [TRBracket])).
    cbn [parse_from parse_step value_token deliver mbind option_bind].
    rewrite IH. cbn [List.rev fmap list_fmap]. by rewrite <- app_assoc.
Qed.

(** The text of a list of ids parses to those ids. *)
Lemma parse_id_list (ns : list nat) :
  parse (id_list_text ns) = Some (JArr ((λ n, int (Z.of_nat n)) <$> ns)).
Proof.
  unfold parse. rewrite lex_id_list. cbn [mbind option_bind].
  replace ((λ n, int (Z.of_nat n)) <$> ns) with ((λ n, JNum (nat_number n)) <$> ns)
    by (apply list_fmap_ext; intros; by rewrite int_of_nat).
  destruct ns as [|n ns]; [reflexivity|].
  cbn [parse_from parse_step value_token deliver mbind option_bind].
  by rewrite parse_more_ids.
Qed.

End IdList.

Section Bracketed.

Import JsString.

Lemma chars_append (a b : string) :
  String.list_ascii_of_string (a +:+ b)
  = String.list_ascii_of_string a ++ String.list_ascii_of_string b.
Proof.
  induction a as [|c a IH]; [done|]. rewrite append_cons. cbn. by rewrite IH.
Qed.

Lemma no_tick_append (a b : string) : no_tick (a +:+ b) ↔ no_tick a ∧ no_tick b.
Proof. unfold no_tick. by rewrite chars_append, Forall_app. Qed.

Lemma no_tick_pretty (n : nat) : no_tick (pretty n).
Proof.
  unfold pretty, pretty_nat, pretty, pretty_N.
  destruct (decide (N.of_nat n = 0)%N).
  - repeat constructor. discriminate.
  - apply pretty_N_go_no_tick. constructor.
Qed.

Lemma no_tick_concat (ns : list nat) : no_tick (String.concat ", " (pretty <$> ns)).
Proof.
  induction ns as [|n [|m ns] IH].
  - constructor.
  - apply no_tick_pretty.
  - change (pretty <$> n :: m :: ns) with (pretty n :: pretty m :: (pretty <$> ns)).
    rewrite concat_cons2. apply no_tick_append. split; [apply no_tick_pretty|].
    apply no_tick_append. split; [|exact IH].
    repeat constructor; discriminate.
Qed.

Lemma no_tick_no_fence (s : string) : no_tick s → includes "```" s = false.
Proof.
  intros Hs. destruct (includes "```" s) eqn:Hin; [|done].
  apply includes_spec in Hin as (u & v & ->).
  apply no_tick_append in Hs as [_ Hs]. apply no_tick_append in Hs as [Hs _].
  inversion Hs as [|c l Hc _]. done.
Qed.

(** A pattern that begins with a backtick finds nothing in a text without
    one. *)
Lemma remove_all_skip (p a b : string) :
  no_tick a →
  remove_all (String "`" p) (a +:+ b) = a +:+ remove_all (String "`" p) b.
Proof.
  unfold remove_all. induction a as [|c a IH]; intros Ha; [done|].
  inversion Ha as [|c' l Hc Ha']; subst. rewrite !append_cons.
  cbn [remove_from]. rewrite startsWith_cons.
  destruct (Ascii.eqb_spec "`" c) as [<-|_]; [done|]. cbn [andb].
  f_equal. by apply IH.
Qed.

Lemma head_ws_bracket (s : string) : head_ws (String "[" s) = None.
Proof. by destruct s as [|b [|c s]]. Qed.

Lemma head_ws_rev_bracket (s : string) : head_ws_rev (String "]" s) = None.
Proof.
  destruct s as [|b [|c s]]; cbn [head_ws_rev]; try done.
  - change (ws1 "]") with false. cbn match. unfold ws2. cbn.
    by rewrite andb_false_r.
  - change (ws1 "]") with false. cbn match. unfold ws2, ws3. cbn.
    by rewrite !andb_false_r.
Qed.

Lemma rev_bracketed (body : string) :
  String.rev ("[" +:+ body +:+ "]") = String "]" (String.rev body +:+ "[").
Proof.
  change ("[" +:+ body +:+ "]") with (String "[" (body +:+ "]")).
  rewrite rev_cons, rev_append. reflexivity.
Qed.

(** A bracketed text has no white space at either end, alone or between
    two line ends. *)
Lemma trim_bracketed (body : string) :
  trim ("[" +:+ body +:+ "]") = "[" +:+ body +:+ "]"
  ∧ trim (nl +:+ ("[" +:+ body +:+ "]") +:+ nl) = "[" +:+ body +:+ "]".
Proof.
  set (t := "[" +:+ body +:+ "]").
  assert (Hend : trimStart_rev (String.rev t) = String.rev t).
  { unfold t. rewrite rev_bracketed, trimStart_rev_unfold.
    by rewrite head_ws_rev_bracket. }
  assert (Hfixed : trim t = t).
  { apply trimmed_fixed. split; [apply head_ws_bracket|].
    unfold t. rewrite rev_bracketed. apply head_ws_rev_bracket. }
  split; [exact Hfixed|].
  unfold trim. change (nl +:+ t +:+ nl) with (String "010" (t +:+ nl)).
  rewrite trimStart_unfold. change (head_ws (String "010" (t +:+ nl))) with (Some (t +:+ nl)).
  cbn match. rewrite trimStart_unfold.
  change (t +:+ nl) with (String "[" ((body +:+ "]") +:+ nl)) at 1.
  rewrite head_ws_bracket.
  unfold trimEnd. change (String "[" ((body +:+ "]") +:+ nl)) with (t +:+ nl).
  rewrite rev_append. change (String.rev nl +:+ String.rev t) with (String "010" (String.rev t)).
  rewrite trimStart_rev_unfold.
  change (head_ws_rev (String "010" (String.rev t))) with (Some (String.rev t)).
  cbn match. rewrite Hend. apply rev_involutive.
Qed.

(** A bracketed text without backtick is cleaned to itself, bare or
    between fences. *)
Lemma sanitize_bracketed (body : string) :
  no_tick body →
  sanitize ("[" +:+ body +:+ "]") = "[" +:+ body +:+ "]"
  ∧ sanitize (fenced ("[" +:+ body +:+ "]")) = "[" +:+ body +:+ "]".
Proof.
  intros Hbody. set (t := "[" +:+ body +:+ "]").
  assert (Ht : no_tick t).
  { unfold t. apply no_tick_append. split; [repeat constructor; discriminate|].
    apply no_tick_append. split; [done|]. repeat constructor; discriminate. }
  destruct (trim_bracketed body) as [Htrim Htrim']. fold t in Htrim, Htrim'.
  assert (Hjson : startsWith "json" t = false) by reflexivity.
  split.
  - rewrite sanitize_without_fence by (by apply no_tick_no_fence).
    by rewrite Htrim, Hjson.
  - unfold sanitize, fenced.
    change (remove_all "```json" ("```json" +:+ nl +:+ t +:+ nl +:+ "```"))
      with (remove_all "```json" (nl +:+ t +:+ nl +:+ "```")).
    assert (Hmid : no_tick (nl +:+ t +:+ nl)).
    { apply no_tick_append. split; [repeat constructor; discriminate|].
      apply no_tick_append. split; [done|]. repeat constructor; discriminate. }
    replace (nl +:+ t +:+ nl +:+ "```") with ((nl +:+ t +:+ nl) +:+ "```")
      by (by rewrite !append_assoc).
    rewrite (remove_all_skip "``json") by done.
    change (remove_all "```json" "```") with "```".
    rewrite (remove_all_skip "``") by done.
    change (remove_all "```" "```") with "". rewrite append_nil_r.
    by rewrite Htrim', Hjson.
Qed.

End Bracketed.

(** The array an answer in that format parses to. *)
Definition id_values (ns : list nat) : list Json.value :=
  (λ n, Json.int (Z.of_nat n)) <$> ns.

(** The id names an entry of the corpus. *)
Definition names_entry (d : list FeedbackEntry) (n : nat) : bool :=
  bool_decide (Some n ∈ id <$> d).

Section NamedEntries.

Lemma known_of_nat (d : list FeedbackEntry) (n : nat) :
  known d (Z.of_nat n) = names_entry d n.
Proof.
  unfold known, names_entry. rewrite Nat2Z.id.
  rewrite (bool_decide_eq_true_2 (0 ≤ Z.of_nat n)%Z) by lia. done.
Qed.

Lemma sortedData_nat (ns : list nat) (d : list FeedbackEntry) :
  id <$> sortedData (id_values ns) d = Some <$> List.filter (names_entry d) ns.
Proof.
  unfold sortedData, id_values. induction ns as [|n ns IH]; [done|].
  cbn [fmap list_fmap omap list_omap List.filter].
  pose proof (find_int d (Z.of_nat n)) as Hn. rewrite known_of_nat in Hn.
  destruct (names_entry d n).
  - destruct Hn as (e & -> & He). cbn. rewrite He, Nat2Z.id. f_equal. exact IH.
  - rewrite Hn. exact IH.
Qed.

Lemma sortedData_named (ns : list nat) (d es : list FeedbackEntry) :
  NoDup (id <$> d) →
  Forall2 (λ n e, e ∈ d ∧ id e = Some n) ns es →
  sortedData (id_values ns) d = es.
Proof.
  intros Hnd. unfold sortedData, id_values.
  induction 1 as [|n e ns es [Hin Hid] Hrest IH]; [done|].
  cbn [fmap list_fmap omap list_omap].
  rewrite (find_unique d e n) by done. cbn. by rewrite IH.
Qed.

End NamedEntries.

(** X22. Round trip of the answer format.  For every list of ids, the text
    the prompt asks for (the ids in decimal between brackets, separated by
    a comma and a space) is cleaned and parsed back to exactly these ids,
    and so is that text between a language-tagged fence and a closing
    fence. *)
Theorem requested_format_round_trip (ns : list nat) :
  sanitize (id_list_text ns) = id_list_text ns
  ∧ sanitize (fenced (id_list_text ns)) = id_list_text ns
  ∧ Json.parse (sanitize (id_list_text ns)) = Some (Json.JArr (id_values ns))
  ∧ Json.parse (sanitize (fenced (id_list_text ns))) = Some (Json.JArr (id_values ns)).
Proof.
  destruct (sanitize_bracketed (String.concat ", " (pretty <$> ns)) (no_tick_concat ns))
    as [Hbare Hfenced].
  fold (id_list_text ns) in Hbare, Hfenced.
  rewrite Hbare, Hfenced. by rewrite parse_id_list.
Qed.

(** X23. An answer in that format, bare or fenced, is answered with the
    entries it names: the response is 200, its entries are those of the
    corpus whose ids are listed, in the order of the list, ids that name no
    entry being passed over; when every id names an entry, the response is
    the list of these entries. *)
Theorem named_entries_are_returned
    (Papa_parse : string → list Row) (q : string) (key : option string)
    (csv : string) (g : string → generated) (ns : list nat) (text : string) :
  q ≠ "" → configured key = true →
  text = id_list_text ns ∨ text = fenced (id_list_text ns) →
  g (prompt q (data (Papa_parse csv))) = GenerateText text →
  let corpus := data (Papa_parse csv) in
  ∃ out,
    (POST Papa_parse (mkWorld (Some (request q)) key (FetchResponse true csv) g)).1
    = mkResponse 200 (Entries out)
    ∧ id <$> out = Some <$> List.filter (names_entry corpus) ns
    ∧ ∀ es, Forall2 (λ n e, e ∈ corpus ∧ id e = Some n) ns es → out = es.
Proof.
  intros Hq Hkey Htext Hg corpus.
  assert (Hparse : Json.parse (sanitize text) = Some (Json.JArr (id_values ns))).
  { destruct (sanitize_bracketed (String.concat ", " (pretty <$> ns)) (no_tick_concat ns))
      as [Hbare Hfenced].
    fold (id_list_text ns) in Hbare, Hfenced.
    destruct Htext as [-> | ->]; [rewrite Hbare|rewrite Hfenced]; apply parse_id_list. }
  exists (sortedData (id_values ns) corpus). split; [|split].
  - rewrite POST_reaches_model by done. rewrite Hg. cbn [after_answer].
    by rewrite Hparse.
  - apply sortedData_nat.
  - intros es Hes. apply sortedData_named; [apply data_ids_NoDup|done].
Qed.

(** The ids 3, 1, 2 and the unknown 40, fenced, over four rows. *)
Lemma named_entries_are_returned_witness :
  ∃ out,
    (POST (λ _, four_rows)
       (ready "draft" "csv" (λ _, GenerateText (fenced (id_list_text [3; 40; 1; 2]))))).1
    = mkResponse 200 (Entries out)
    ∧ id <$> out = [Some 3; Some 1; Some 2].
Proof.
  destruct (named_entries_are_returned (λ _, four_rows) "draft" (Some "key") "csv"
              (λ _, GenerateText (fenced (id_list_text [3; 40; 1; 2]))) [3; 40; 1; 2]
              (fenced (id_list_text [3; 40; 1; 2])))
    as (out & Hout & Hids & _);
    [discriminate | reflexivity | by right | reflexivity |].
  exists out. split; [exact Hout|]. rewrite Hids. by vm_compute.
Defined.

(** ** What the prompt contains *)

Section PromptContents.

Lemma factor_of_refl (s : string) : factor_of s s.
Proof. exists "", "". by rewrite append_nil_r. Qed.

Lemma concat_factor (sep x : string) (l : list string) :
  x ∈ l → factor_of x (String.concat sep l).
Proof.
  induction l as [|y [|z l] IH]; intros Hx.
  - by apply elem_of_nil in Hx.
  - apply list_elem_of_singleton in Hx as ->. apply factor_of_refl.
  - rewrite concat_cons2. apply elem_of_cons in Hx as [->|Hx].
    + apply prefix_factor.
    + eapply factor_of_trans; [by apply IH|].
      eapply factor_of_trans; apply suffix_factor.
Qed.

Lemma problemsList_factor (d : list FeedbackEntry) (e : FeedbackEntry) :
  e ∈ d →
  factor_of ("ID: " +:+ show_id (id e) +:+ ", Problem: " +:+ problem e) (problemsList d).
Proof.
  intros He. unfold problemsList. apply concat_factor.
  apply list_elem_of_In, in_map_iff. exists e. by rewrite <- list_elem_of_In.
Qed.

End PromptContents.

(** X24. The prompt carries the user's text as it is, between double
    quotes, and one line [ID: n, Problem: p] for every entry of the corpus,
    whatever the size of the corpus. *)
Theorem prompt_lists_every_entry (query : string) (d : list FeedbackEntry) :
  factor_of (dq +:+ query +:+ dq) (prompt query d)
  ∧ Forall (λ e, ∀ n, id e = Some n →
              factor_of ("ID: " +:+ pretty n +:+ ", Problem: " +:+ problem e)
                (prompt query d)) d.
Proof.
  split.
  - unfold prompt.
    eexists (nl +:+ "        You are a helpful assistant for a feedback encyclopedia."
             +:+ nl
             +:+ "        The user has provided a problem description or a draft text: "),
      _.
    rewrite !append_assoc. reflexivity.
  - apply Forall_forall. intros e He n Hn.
    eapply factor_of_trans.
    { pose proof (problemsList_factor d e He) as H. rewrite Hn in H. exact H. }
    unfold prompt.
    eexists (nl +:+ "        You are a helpful assistant for a feedback encyclopedia."
             +:+ nl
             +:+ "        The user has provided a problem description or a draft text: "
             +:+ dq +:+ query +:+ dq
             +:+ nl +:+ "        "
             +:+ nl +:+ "        Here is a list of known problem categories and descriptions:"
             +:+ nl +:+ "        "), _.
    rewrite !append_assoc. reflexivity.
Qed.

(** ** Requests of another shape *)

(** X25. Requests that are not of the expected shape.  A body that is not
    JSON, the body [null], and an object whose query is a number, a
    boolean, an array or an object, the falsy [0] and [false] included,
    are answered 500 because the handler fails before its test of the
    query; a body that is a number, a string, a boolean or an array is
    answered 400.  Nothing is contacted in any of these cases. *)
Theorem misshapen_requests
    (Papa_parse : string → list Row) (key : option string) (sh : fetched)
    (g : string → generated) (body : option Json.value) :
  let run := POST Papa_parse (mkWorld body key sh g) in
  (body = None ∨ body = Some Json.JNull → status run.1 = 500 ∧ run.2 = [])
  ∧ (∀ members v, body = Some (Json.JObj members) →
       Json.get "query" members = Some v →
       v ≠ Json.JNull → (∀ q, v ≠ Json.JStr q) →
       status run.1 = 500 ∧ run.2 = [])
  ∧ (∀ v, body = Some v → v ≠ Json.JNull → (∀ members, v ≠ Json.JObj members) →
       run = (mkResponse 400 (ErrorBody "Query is required" None), [])).
Proof.
  intros run. subst run. split; [|split].
  - intros Hbody.
    destruct (handler_bad_body Papa_parse (mkWorld body key sh g)) as [e ->];
      [tauto|done].
  - intros members v Hbody Hget Hnull Hstr.
    destruct (handler_bad_body Papa_parse (mkWorld body key sh g)) as [e ->];
      [|done].
    right. right. by exists members, v.
  - intros v -> Hnull Hobj.
    destruct v as [|b|n|t|items|members]; try reflexivity; [done|].
    by destruct (Hobj members).
Qed.

(** A query of 0: falsy, and still not answered 400. *)
Lemma misshapen_requests_witness :
  status (POST (λ _, [])
            (mkWorld (Some (Json.JObj [("query", Json.int 0)])) (Some "key")
               (FetchResponse true "csv") (λ _, GenerateText "[]"))).1 = 500.
Proof.
  pose proof (misshapen_requests (λ _, []) (Some "key") (FetchResponse true "csv")
                (λ _, GenerateText "[]")
                (Some (Json.JObj [("query", Json.int 0)]))) as H.
  cbv zeta in H. destruct H as (_ & H & _).
  by destruct (H [("query", Json.int 0)] (Json.int 0) eq_refl eq_refl) as [-> _].
Defined.
